(** * AI Cinematic Scene Generator: the application logic of [App.tsx]
      and [components/ImageUploader.tsx], embedded and verified.

    Strings are Rocq [string]s: a character of the model is a code unit
    below 256, so the only line terminators are LF and CR and the white
    space characters are TAB, LF, VT, FF, CR, SPACE and NBSP.  JavaScript
    numbers that the code uses as integers (identifiers, clock readings,
    indices) are [Z].  A value that may be [null] or [undefined] is an
    [option]. *)

From Stdlib Require Import List String Ascii ZArith Lia Bool DecimalString.
From Stdlib Require Import Permutation DecimalZ DecimalPos.
Import ListNotations.
Local Open Scope list_scope.
Local Open Scope string_scope.

(* ===================================================================== *)
(** ** JavaScript string primitives used by the source                    *)
(* ===================================================================== *)

Module Js.

(** What a [throw] carries: an [Error] object with its message, or any
    other value (a [ProgressEvent] of a failed file read, for instance). *)
Inductive Thrown : Type :=
  | ErrorObject (message : string)
  | OtherValue.

(** Outcome of evaluating an expression that may throw. *)
Inductive result (A : Type) : Type :=
  | Ok (a : A)
  | Throw (e : Thrown).
Arguments Ok {A} a.
Arguments Throw {A} e.

(** [s.split(sep)] for a one-character separator.  The array is never
    empty: [''.split(',')] is [['']]. *)
Fixpoint split (sep : ascii) (s : string) : list string :=
  match s with
  | EmptyString => [EmptyString]
  | String c rest =>
      if Ascii.eqb c sep then EmptyString :: split sep rest
      else match split sep rest with
           | [] => [String c EmptyString]
           | p :: ps => String c p :: ps
           end
  end.

(** [parts.join(sep)]. *)
Definition join (sep : string) (parts : list string) : string :=
  String.concat sep parts.

(** [s.replace(/c/g, d)] for single characters [c] and [d]. *)
Fixpoint replaceAll (c d : ascii) (s : string) : string :=
  match s with
  | EmptyString => EmptyString
  | String x rest =>
      String (if Ascii.eqb x c then d else x) (replaceAll c d rest)
  end.

(** Line terminators: the characters the regular expression dot refuses. *)
Definition isLineTerminator (c : ascii) : bool :=
  Ascii.eqb c "010"%char || Ascii.eqb c "013"%char.

(** White space as [String.prototype.trim] understands it. *)
Definition isWhiteSpace (c : ascii) : bool :=
  let n := N_of_ascii c in
  (N.eqb n 9 || N.eqb n 10 || N.eqb n 11 || N.eqb n 12 || N.eqb n 13
   || N.eqb n 32 || N.eqb n 160)%bool.

Fixpoint trimStart (s : string) : string :=
  match s with
  | EmptyString => EmptyString
  | String c rest => if isWhiteSpace c then trimStart rest else s
  end.

Fixpoint trimEnd (s : string) : string :=
  match s with
  | EmptyString => EmptyString
  | String c rest =>
      match trimEnd rest with
      | EmptyString => if isWhiteSpace c then EmptyString
                       else String c EmptyString
      | kept => String c kept
      end
  end.

Definition trim (s : string) : string := trimEnd (trimStart s).

(** Truthiness of a string: every string but the empty one. *)
Definition truthy (s : string) : bool :=
  match s with EmptyString => false | String _ _ => true end.

(** [`${n}`] for an integer-valued number. *)
Definition numberToString (n : Z) : string :=
  NilZero.string_of_int (Z.to_int n).

(** [`${v}`] for a string that may be [undefined]. *)
Definition interpolate (v : option string) : string :=
  match v with Some s => s | None => "undefined" end.

(** The one-character string holding a double quote. *)
Definition doubleQuote : string := String "034"%char EmptyString.

(** [s.includes(c)] for a character, as a decidable test. *)
Fixpoint contains (c : ascii) (s : string) : bool :=
  match s with
  | EmptyString => false
  | String x rest => Ascii.eqb x c || contains c rest
  end.

Fixpoint existsChar (p : ascii -> bool) (s : string) : bool :=
  match s with
  | EmptyString => false
  | String x rest => p x || existsChar p rest
  end.

End Js.
Import Js.

(* ===================================================================== *)
(** ** components/ImageUploader.tsx                                       *)
(* ===================================================================== *)

(** [ImageFile] of [types.ts], as the code builds and reads it.  The
    [base64] field is declared a string, but [parseDataUrl] fills it from
    [parts[1]], which is [undefined] when the input holds no comma. *)
Record ImageFile : Type := mkImageFile {
  base64 : option string;
  mimeType : string
}.

(** The lazy group of [/:(.*?);/] once the colon has been consumed: the
    shortest run of characters other than line terminators that a
    semicolon follows. *)
Fixpoint lazyUntilSemicolon (s : string) : option string :=
  match s with
  | EmptyString => None
  | String c rest =>
      if Ascii.eqb c ";"%char then Some EmptyString
      else if isLineTerminator c then None
      else match lazyUntilSemicolon rest with
           | Some g => Some (String c g)
           | None => None
           end
  end.

(** [s.match(/:(.*?);/)]: the capture group of the leftmost match, or
    [None] for the [null] of a failed match. *)
Fixpoint matchMime (s : string) : option string :=
  match s with
  | EmptyString => None
  | String c rest =>
      if Ascii.eqb c ":"%char then
        match lazyUntilSemicolon rest with
        | Some g => Some g
        | None => matchMime rest
        end
      else matchMime rest
  end.

Definition invalidDataUrl : Thrown := ErrorObject "Invalid data URL".

(** [parseDataUrl], ImageUploader.tsx lines 12-21.  A successful match
    array always has its two entries, so the [length < 2] test never
    fires. *)
Definition parseDataUrl (dataUrl : string) : result ImageFile :=
  let parts := split ","%char dataUrl in
  match parts with
  | [] => Throw (ErrorObject "Cannot read properties of undefined")
  | part0 :: _ =>
      match matchMime part0 with
      | None => Throw invalidDataUrl
      | Some mime =>
          Ok {| base64 := nth_error parts 1; mimeType := mime |}
      end
  end.

(** The template [`data:${image.mimeType};base64,${image.base64}`] of
    ImageUploader.tsx line 79 (and of the history panel and viewer). *)
Definition imageSrc (image : ImageFile) : string :=
  "data:" ++ mimeType image ++ ";base64," ++ interpolate (base64 image).

(** The encoded-image strings of the specification. *)
Definition dataUrlOf (mediaType payload : string) : string :=
  "data:" ++ mediaType ++ ";base64," ++ payload.


(* ===================================================================== *)
(** ** App.tsx: data                                                      *)
(* ===================================================================== *)

(** [Character] of [types.ts]: the element of the four editable lists. *)
Module Character.
Record t : Type := mk {
  id : Z;
  name : string;
  image : option ImageFile
}.
End Character.

(** The tag ['gen' | 'edit'] of a history entry. *)
Inductive HistoryType : Type := Gen | Edit.

Definition typeTag (type : HistoryType) : string :=
  match type with Gen => "gen" | Edit => "edit" end.

(** [HistoryItem] of [types.ts]. *)
Module HistoryItem.
Record t : Type := mk {
  id : string;
  image : ImageFile;
  prompt : string;
  createdAt : string
}.
End HistoryItem.

Inductive Tab : Type := TabGenerate | TabEdit.

(** A browser [File] as the bulk handler sees it: its name, its declared
    type, and what [FileReader.readAsDataURL] delivers for it ([None] when
    the read fails and [reader.result] is [null]). *)
Module File.
Record t : Type := mk {
  name : string;
  type : string;
  dataUrl : option string
}.
End File.

(** The argument of [generateStoryImage]. *)
Module Request.
Record t : Type := mk {
  prompt : string;
  characterImages : list ImageFile;
  styleImage : option ImageFile;
  baseImage : option ImageFile
}.
End Request.

Definition MAX_HISTORY_ITEMS : nat := 20.

(** The [useState] cells of [App] that the handlers below read or write.
    The cells of the image viewer, of the history panel toggle, of the
    prompt enhancer and of the edit tab's base image are left out. *)
Record App : Type := mkApp {
  activeTab : Tab;
  history : list HistoryItem.t;
  characters : list Character.t;
  additionalElements : list Character.t;
  sceneDescription : string;
  sceneLocationImage : option ImageFile;
  styleImage : option ImageFile;
  aspectRatio : string;
  lightingStyle : string;
  cameraPerspective : string;
  numberOfImages : Z;
  generatedPrompt : string;
  generatedImages : list string;
  genLoading : bool;
  genError : option string;
  editAddChars : list Character.t;
  editAddObjs : list Character.t
}.

(** The state after the first render, App.tsx lines 61-95. *)
Definition initialApp : App :=
  {| activeTab := TabGenerate;
     history := [];
     characters := [Character.mk 1 "Character 1" None];
     additionalElements := [];
     sceneDescription := "";
     sceneLocationImage := None;
     styleImage := None;
     aspectRatio := "16:9";
     lightingStyle := "natural morning light";
     cameraPerspective := "close-up shot";
     numberOfImages := 1;
     generatedPrompt := "";
     generatedImages := [];
     genLoading := false;
     genError := None;
     editAddChars := [];
     editAddObjs := [] |}.

(** State setters, one per [useState] cell that is written. *)
Definition setHistory (v : list HistoryItem.t) (st : App) : App :=
  mkApp (activeTab st) v (characters st) (additionalElements st)
    (sceneDescription st) (sceneLocationImage st) (styleImage st)
    (aspectRatio st) (lightingStyle st) (cameraPerspective st)
    (numberOfImages st) (generatedPrompt st) (generatedImages st)
    (genLoading st) (genError st) (editAddChars st) (editAddObjs st).

Definition setCharacters (v : list Character.t) (st : App) : App :=
  mkApp (activeTab st) (history st) v (additionalElements st)
    (sceneDescription st) (sceneLocationImage st) (styleImage st)
    (aspectRatio st) (lightingStyle st) (cameraPerspective st)
    (numberOfImages st) (generatedPrompt st) (generatedImages st)
    (genLoading st) (genError st) (editAddChars st) (editAddObjs st).

Definition setAdditionalElements (v : list Character.t) (st : App) : App :=
  mkApp (activeTab st) (history st) (characters st) v
    (sceneDescription st) (sceneLocationImage st) (styleImage st)
    (aspectRatio st) (lightingStyle st) (cameraPerspective st)
    (numberOfImages st) (generatedPrompt st) (generatedImages st)
    (genLoading st) (genError st) (editAddChars st) (editAddObjs st).

Definition setGeneratedPrompt (v : string) (st : App) : App :=
  mkApp (activeTab st) (history st) (characters st) (additionalElements st)
    (sceneDescription st) (sceneLocationImage st) (styleImage st)
    (aspectRatio st) (lightingStyle st) (cameraPerspective st)
    (numberOfImages st) v (generatedImages st)
    (genLoading st) (genError st) (editAddChars st) (editAddObjs st).

Definition setGeneratedImages (v : list string) (st : App) : App :=
  mkApp (activeTab st) (history st) (characters st) (additionalElements st)
    (sceneDescription st) (sceneLocationImage st) (styleImage st)
    (aspectRatio st) (lightingStyle st) (cameraPerspective st)
    (numberOfImages st) (generatedPrompt st) v
    (genLoading st) (genError st) (editAddChars st) (editAddObjs st).

Definition setGenLoading (v : bool) (st : App) : App :=
  mkApp (activeTab st) (history st) (characters st) (additionalElements st)
    (sceneDescription st) (sceneLocationImage st) (styleImage st)
    (aspectRatio st) (lightingStyle st) (cameraPerspective st)
    (numberOfImages st) (generatedPrompt st) (generatedImages st)
    v (genError st) (editAddChars st) (editAddObjs st).

Definition setGenError (v : option string) (st : App) : App :=
  mkApp (activeTab st) (history st) (characters st) (additionalElements st)
    (sceneDescription st) (sceneLocationImage st) (styleImage st)
    (aspectRatio st) (lightingStyle st) (cameraPerspective st)
    (numberOfImages st) (generatedPrompt st) (generatedImages st)
    (genLoading st) v (editAddChars st) (editAddObjs st).

Definition setEditAddChars (v : list Character.t) (st : App) : App :=
  mkApp (activeTab st) (history st) (characters st) (additionalElements st)
    (sceneDescription st) (sceneLocationImage st) (styleImage st)
    (aspectRatio st) (lightingStyle st) (cameraPerspective st)
    (numberOfImages st) (generatedPrompt st) (generatedImages st)
    (genLoading st) (genError st) v (editAddObjs st).

Definition setEditAddObjs (v : list Character.t) (st : App) : App :=
  mkApp (activeTab st) (history st) (characters st) (additionalElements st)
    (sceneDescription st) (sceneLocationImage st) (styleImage st)
    (aspectRatio st) (lightingStyle st) (cameraPerspective st)
    (numberOfImages st) (generatedPrompt st) (generatedImages st)
    (genLoading st) (genError st) (editAddChars st) v.

(* ===================================================================== *)
(** ** App.tsx: pure helpers                                              *)
(* ===================================================================== *)

(** [getNameFromFilename], App.tsx lines 15-22. *)
Definition getNameFromFilename (fileName : string) : string :=
  if negb (truthy fileName) then ""
  else
    let nameParts := split "."%char fileName in
    let nameParts :=
      if (1 <? List.length nameParts)%nat then removelast nameParts
      else nameParts in
    replaceAll "-"%char " "%char
      (replaceAll "_"%char " "%char (join "." nameParts)).

(** [list.findIndex(p)], [-1] when no element satisfies [p]. *)
Fixpoint findIndexFrom {A : Type} (p : A -> bool) (l : list A) (i : Z) : Z :=
  match l with
  | [] => (-1)%Z
  | x :: rest => if p x then i else findIndexFrom p rest (i + 1)%Z
  end.

Definition findIndex {A : Type} (p : A -> bool) (l : list A) : Z :=
  findIndexFrom p l 0%Z.

(** The test [image && fileName] of the four upload handlers, giving the
    file name when both are truthy. *)
Definition attachedFileName (image : option ImageFile)
    (fileName : option string) : option string :=
  match image, fileName with
  | Some _, Some f => if truthy f then Some f else None
  | _, _ => None
  end.

(** The positional placeholder [`${noun} ${findIndex(...) + 1}`]. *)
Definition positionalName (noun : string) (prev : list Character.t)
    (id : Z) : string :=
  noun ++ " "
  ++ numberToString
       (findIndex (fun c => Z.eqb (Character.id c) id) prev + 1)%Z.

(** The two conjuncts that qualify an element for the prompt,
    [c.image !== null && c.name.trim() !== '']. *)
Definition namedWithImage (c : Character.t) : bool :=
  match Character.image c with
  | Some _ => truthy (trim (Character.name c))
  | None => false
  end.

(** [list.filter(namedWithImage).map(c => `(${c.name.trim()})`).join(', ')]. *)
Definition parenthesizedNames (l : list Character.t) : string :=
  join ", "
    (map (fun c => "(" ++ trim (Character.name c) ++ ")")
         (filter namedWithImage l)).

Definition isSome {A : Type} (o : option A) : bool :=
  match o with Some _ => true | None => false end.

(** The array [promptParts] of the prompt generator, App.tsx lines
    147-157. *)
Definition promptParts (st : App) : list string :=
  let characterNames := parenthesizedNames (characters st) in
  let elementNames := parenthesizedNames (additionalElements st) in
  [ if truthy (sceneDescription st)
    then "A cinematic scene with a strict aspect ratio of "
         ++ aspectRatio st ++ ": " ++ sceneDescription st ++ "."
    else "A cinematic scene with a strict aspect ratio of "
         ++ aspectRatio st ++ ".";
    if truthy characterNames
    then "Featuring characters: " ++ characterNames ++ "." else "";
    if truthy elementNames
    then "The scene also includes these key objects/props: "
         ++ elementNames ++ "."
    else "";
    if isSome (sceneLocationImage st)
    then "Use the provided " ++ doubleQuote ++ "Scene Location" ++ doubleQuote
         ++ " image as the background for the scene."
    else "";
    "The lighting should be " ++ lightingStyle st ++ ".";
    "Use a " ++ cameraPerspective st ++ ".";
    if truthy characterNames || truthy elementNames
       || isSome (styleImage st) || isSome (sceneLocationImage st)
    then "Use the provided images for character, object, location, and style consistency."
    else "" ].

(** [promptParts.filter(p => p).join(' ')]. *)
Definition newPrompt (st : App) : string :=
  join " " (filter truthy (promptParts st)).

(** The prompt generator effect, App.tsx lines 134-162: it runs after a
    render in which one of its dependencies changed. *)
Definition promptGeneratorEffect (st : App) : App :=
  match activeTab st with
  | TabGenerate => setGeneratedPrompt (newPrompt st) st
  | TabEdit => st
  end.

(** Derived state, App.tsx lines 98-102. *)
Definition isGenerationDisabled (st : App) : bool :=
  let hasSceneDescription := truthy (trim (sceneDescription st)) in
  let hasCharacterImage :=
    existsb (fun c => isSome (Character.image c)) (characters st) in
  let hasElementImage :=
    existsb (fun e => isSome (Character.image e)) (additionalElements st) in
  let hasLocationImage := isSome (sceneLocationImage st) in
  negb (hasSceneDescription || hasCharacterImage || hasElementImage
        || hasLocationImage)
  || genLoading st.

(* ===================================================================== *)
(** ** The browser and the effects of a handler                           *)
(* ===================================================================== *)

(** What the handlers consume from outside: the system clock
    ([now k] is its [k]-th reading), [Date.prototype.toISOString], and
    the image service of [services/geminiService], whose [k]-th call
    either delivers an encoded image or throws. *)
Record Browser : Type := mkBrowser {
  now : nat -> Z;
  toISOString : Z -> string;
  generateStoryImage : nat -> Request.t -> result string
}.

(** The state a handler runs in: the React state, the number of clock
    readings taken so far, the service requests issued so far (oldest
    first) and the labels passed to [console.error]. *)
Record World : Type := mkWorld {
  appState : App;
  ticks : nat;
  requests : list Request.t;
  console : list string
}.

(** A computation reads the browser, transforms the world and either
    returns or throws; what it wrote before throwing stays written. *)
Definition M (A : Type) : Type := Browser -> World -> result A * World.

Definition ret {A : Type} (a : A) : M A := fun _ w => (Ok a, w).

Definition bind {A B : Type} (m : M A) (k : A -> M B) : M B :=
  fun br w =>
    match m br w with
    | (Ok a, w') => k a br w'
    | (Throw e, w') => (Throw e, w')
    end.

Declare Scope js_scope.
Delimit Scope js_scope with js.
Notation "x <- m ;; k" := (bind m (fun x => k))
  (at level 100, m at next level, right associativity) : js_scope.
Notation "m ;; k" := (bind m (fun _ => k))
  (at level 100, right associativity) : js_scope.
Local Open Scope js_scope.

(** Evaluating an expression that may throw. *)
Definition lift {A : Type} (r : result A) : M A := fun _ w => (r, w).

(** [try { body } catch (e) { handler(e) }]. *)
Definition tryCatch {A : Type} (body : M A) (handler : Thrown -> M A) : M A :=
  fun br w =>
    match body br w with
    | (Ok a, w') => (Ok a, w')
    | (Throw e, w') => handler e br w'
    end.

(** [try { body } finally { cleanup }]. *)
Definition tryFinally {A : Type} (body : M A) (cleanup : M unit) : M A :=
  fun br w =>
    match body br w with
    | (r, w') =>
        match cleanup br w' with
        | (Ok _, w'') => (r, w'')
        | (Throw e, w'') => (Throw e, w'')
        end
    end.

(** A state setter called with an updater function, [setX(prev => ...)],
    or with a value. *)
Definition update (f : App -> App) : M unit :=
  fun _ w => (Ok tt, mkWorld (f (appState w)) (ticks w) (requests w) (console w)).

(** [Date.now()], and the instant of [new Date()]. *)
Definition dateNow : M Z :=
  fun br w =>
    (Ok (now br (ticks w)),
     mkWorld (appState w) (S (ticks w)) (requests w) (console w)).

(** [console.error(label, ...)]. *)
Definition consoleError (label : string) : M unit :=
  fun _ w =>
    (Ok tt, mkWorld (appState w) (ticks w) (requests w) (console w ++ [label])%list).

(** [await generateStoryImage(request)]. *)
Definition awaitGenerateStoryImage (request : Request.t) : M string :=
  fun br w =>
    (generateStoryImage br (List.length (requests w)) request,
     mkWorld (appState w) (ticks w) (requests w ++ [request])%list (console w)).

(** [array.map((x, index) => f(x, index))] for a callback with effects. *)
Fixpoint mapWithIndex {A B : Type} (f : A -> Z -> M B) (l : list A)
    (index : Z) : M (list B) :=
  match l with
  | [] => ret []
  | x :: rest =>
      y <- f x index ;;
      ys <- mapWithIndex f rest (index + 1)%Z ;;
      ret (y :: ys)
  end.

(** [Promise.all]: the values in the order of the promises when all of
    them resolve, a rejection otherwise.  The reason is the one of the
    promise that rejects first in time; the handler below only logs it,
    and the model takes the first in list order. *)
Fixpoint promiseAll {A : Type} (promises : list (result A)) : result (list A) :=
  match promises with
  | [] => Ok []
  | Throw e :: _ => Throw e
  | Ok a :: rest =>
      match promiseAll rest with
      | Ok l => Ok (a :: l)
      | Throw e => Throw e
      end
  end.

(* ===================================================================== *)
(** ** App.tsx: handlers                                                  *)
(* ===================================================================== *)

(** The updater of [handleAddToHistory],
    [prev => [newHistoryItem, ...prev].slice(0, MAX_HISTORY_ITEMS)]. *)
Definition pushHistory (newHistoryItem : HistoryItem.t)
    (prev : list HistoryItem.t) : list HistoryItem.t :=
  firstn MAX_HISTORY_ITEMS (newHistoryItem :: prev).

(** [handleAddToHistory], App.tsx lines 166-178.  The fields of the object
    literal are evaluated in order: [Date.now()], then [parseDataUrl],
    then [new Date()]. *)
Definition handleAddToHistory (image prompt : string) (type : HistoryType)
    : M unit :=
  tryCatch
    (stamp <- dateNow ;;
     parsed <- lift (parseDataUrl image) ;;
     created <- dateNow ;;
     (fun br =>
        let newHistoryItem :=
          HistoryItem.mk (typeTag type ++ "-" ++ numberToString stamp)
                         parsed prompt (toISOString br created) in
        update (fun st => setHistory (pushHistory newHistoryItem (history st)) st)
               br))
    (fun error => consoleError "Failed to parse image for history:").

(** [handleCharacterImageUpload], App.tsx lines 192-200. *)
Definition handleCharacterImageUpload (id : Z) (image : option ImageFile)
    (fileName : option string) (st : App) : App :=
  let prev := characters st in
  setCharacters
    (map (fun c =>
            if Z.eqb (Character.id c) id then
              let newName :=
                match attachedFileName image fileName with
                | Some f => getNameFromFilename f
                | None =>
                    if truthy (Character.name c) then Character.name c
                    else positionalName "Character" prev id
                end in
              Character.mk (Character.id c) newName image
            else c)
         prev)
    st.

(** [handleElementImageUpload], App.tsx lines 202-210. *)
Definition handleElementImageUpload (id : Z) (image : option ImageFile)
    (fileName : option string) (st : App) : App :=
  let prev := additionalElements st in
  setAdditionalElements
    (map (fun c =>
            if Z.eqb (Character.id c) id then
              let newName :=
                match attachedFileName image fileName with
                | Some f => getNameFromFilename f
                | None =>
                    if truthy (Character.name c) then Character.name c
                    else positionalName "Object" prev id
                end in
              Character.mk (Character.id c) newName image
            else c)
         prev)
    st.

(** [handleEditCharImageUpload], App.tsx lines 255-263. *)
Definition handleEditCharImageUpload (id : Z) (image : option ImageFile)
    (fileName : option string) (st : App) : App :=
  let prev := editAddChars st in
  setEditAddChars
    (map (fun c =>
            if Z.eqb (Character.id c) id then
              let newName :=
                match attachedFileName image fileName with
                | Some f => getNameFromFilename f
                | None => positionalName "Character" prev id
                end in
              Character.mk (Character.id c) newName image
            else c)
         prev)
    st.

(** [handleEditObjImageUpload], App.tsx lines 265-273. *)
Definition handleEditObjImageUpload (id : Z) (image : option ImageFile)
    (fileName : option string) (st : App) : App :=
  let prev := editAddObjs st in
  setEditAddObjs
    (map (fun c =>
            if Z.eqb (Character.id c) id then
              let newName :=
                match attachedFileName image fileName with
                | Some f => getNameFromFilename f
                | None => positionalName "Object" prev id
                end in
              Character.mk (Character.id c) newName image
            else c)
         prev)
    st.

(** The promise built for one dropped file, App.tsx lines 216-232.  A
    failed read fires [onerror], which rejects with the event, before
    [onloadend] finds a [null] result. *)
Definition filePromise (file : File.t) : result (string * ImageFile) :=
  match File.dataUrl file with
  | None => Throw OtherValue
  | Some readerResult =>
      match parseDataUrl readerResult with
      | Ok parsedImage => Ok (getNameFromFilename (File.name file), parsedImage)
      | Throw error => Throw error
      end
  end.

Definition isImageFile (file : File.t) : bool :=
  String.prefix "image/" (File.type file).

Definition bulkErrorMessage : string :=
  "One or more images could not be processed. Please try again.".

(** [handleAdditionalElementsFilesAdd], App.tsx lines 212-248, run to the
    point where the promise chain has settled. *)
Definition handleAdditionalElementsFilesAdd (files : list File.t) : M unit :=
  let filePromises := map filePromise (filter isImageFile files) in
  tryCatch
    (newElementsData <- lift (promiseAll filePromises) ;;
     newCharacters <-
       mapWithIndex
         (fun data index =>
            stamp <- dateNow ;;
            ret (Character.mk (stamp + index)%Z (fst data) (Some (snd data))))
         newElementsData 0%Z ;;
     update (fun st =>
               setAdditionalElements (additionalElements st ++ newCharacters)%list st))
    (fun error =>
       consoleError "Error processing dropped files:" ;;
       update (setGenError (Some bulkErrorMessage))).

(** The text shown for a caught value,
    [err instanceof Error ? err.message : 'An unknown error occurred.']. *)
Definition errorText (err : Thrown) : string :=
  match err with
  | ErrorObject message => message
  | OtherValue => "An unknown error occurred."
  end.

Definition imagesOf (l : list Character.t) : list ImageFile :=
  flat_map (fun c => match Character.image c with
                     | Some img => [img]
                     | None => []
                     end) l.

(** The body of the [for] loop of [handleGenerateClick], lines 289-298,
    for the [remaining] iterations still to run. *)
Fixpoint generateLoop (remaining : nat) (request : Request.t)
    (allGeneratedImages : list string) : M unit :=
  match remaining with
  | O => ret tt
  | S remaining' =>
      resultImage <- awaitGenerateStoryImage request ;;
      let allGeneratedImages := (allGeneratedImages ++ [resultImage])%list in
      update (setGeneratedImages allGeneratedImages) ;;
      handleAddToHistory resultImage (Request.prompt request) Gen ;;
      generateLoop remaining' request allGeneratedImages
  end.

(** [handleGenerateClick], App.tsx lines 276-304.  The callback closes
    over the state [st] of the render it was created in. *)
Definition handleGenerateClick : M unit :=
  fun br w =>
    let st := appState w in
    if isGenerationDisabled st then (Ok tt, w)
    else
      (update (setGenLoading true) ;;
       update (setGenError None) ;;
       update (setGeneratedImages []) ;;
       let characterImages := imagesOf (characters st) in
       let elementImages := imagesOf (additionalElements st) in
       let locationImage :=
         match sceneLocationImage st with Some img => [img] | None => [] end in
       let request :=
         Request.mk (generatedPrompt st)
                    (locationImage ++ characterImages ++ elementImages)%list
                    (styleImage st) None in
       tryFinally
         (tryCatch
            (generateLoop (Z.to_nat (numberOfImages st)) request [])
            (fun err => update (setGenError (Some (errorText err)))))
         (update (setGenLoading false))) br w.

(* ===================================================================== *)
(** ** Specification-side vocabulary                                      *)
(* ===================================================================== *)

(** The characters that the prompt may name. *)
Definition qualified (l : list Character.t) : list Character.t :=
  filter namedWithImage l.


(** The state of the minimal-prompt example; the cells the prompt does
    not read are left free. *)
Definition minimalState (h : list HistoryItem.t) (n : Z) (p : string)
    (imgs : list string) (loading : bool) (err : option string)
    (ec eo : list Character.t) : App :=
  mkApp TabGenerate h [] [] "" None None "16:9" "L" "C" n p imgs loading err
        ec eo.

(** A sequence of history additions, oldest first: the arguments of the
    successive calls of [handleAddToHistory]. *)
Fixpoint addAll (adds : list (string * string * HistoryType)) : M unit :=
  match adds with
  | [] => ret tt
  | (image, prompt, type) :: rest =>
      handleAddToHistory image prompt type ;; addAll rest
  end.

(** The entry that a successful addition builds when the clock has been
    read [tick] times. *)
Definition entryAt (br : Browser) (tick : nat) (parsed : ImageFile)
    (prompt : string) (type : HistoryType) : HistoryItem.t :=
  HistoryItem.mk (typeTag type ++ "-" ++ numberToString (now br tick))
                 parsed prompt (toISOString br (now br (S tick))).

(** The entries that a sequence of additions creates, oldest first.  An
    addition whose image does not parse creates none, and has read the
    clock once. *)
Fixpoint createdItems (br : Browser) (tick : nat)
    (adds : list (string * string * HistoryType)) : list HistoryItem.t :=
  match adds with
  | [] => []
  | (image, prompt, type) :: rest =>
      match parseDataUrl image with
      | Ok parsed =>
          entryAt br tick parsed prompt type
          :: createdItems br (S (S tick)) rest
      | Throw _ => createdItems br (S tick) rest
      end
  end.

(** The request that [handleGenerateClick] sends, once per image. *)
Definition generationRequest (st : App) : Request.t :=
  Request.mk (generatedPrompt st)
    ((match sceneLocationImage st with Some img => [img] | None => [] end)
     ++ imagesOf (characters st) ++ imagesOf (additionalElements st))%list
    (styleImage st) None.

(** The elements that a successful bulk addition builds from the decoded
    files: the one at position [index] gets the clock reading taken for
    it, plus [index]. *)
Fixpoint builtElements (br : Browser) (tick : nat) (index : Z)
    (data : list (string * ImageFile)) : list Character.t :=
  match data with
  | [] => []
  | d :: rest =>
      Character.mk (now br tick + index)%Z (fst d) (Some (snd d))
      :: builtElements br (S tick) (index + 1)%Z rest
  end.

(** A browser for the worked examples: the clock advances by one at each
    reading, and the service delivers an image, then fails, then delivers
    images again. *)
Definition exampleBrowser : Browser :=
  mkBrowser (fun k => (1000 + Z.of_nat k)%Z)
            (fun z => numberToString z)
            (fun k _ =>
               match k with
               | 1%nat => Throw (ErrorObject "quota exceeded")
               | _ => Ok "data:image/png;base64,AAAA"
               end).


(** The world before the first event. *)
Definition initialWorld : World := mkWorld initialApp 0 [] [].

(** The first render with a scene description typed in, three images
    requested and the prompt effect run. *)
Definition threeImagesWorld : World :=
  mkWorld
    (promptGeneratorEffect
       (mkApp TabGenerate [] [Character.mk 1 "Character 1" None] []
              "A storm over the harbour" None None "16:9"
              "natural morning light" "close-up shot" 3 "" [] false None
              [] []))
    0 [] [].

(** The clock does not run backwards from its [tick]-th reading on. *)
Definition clockSteady (br : Browser) (tick : nat) : Prop :=
  forall a b, (tick <= a)%nat -> (a <= b)%nat -> (now br a <= now br b)%Z.

(** A browser whose clock is set back by one millisecond between its
    first two readings. *)
Definition steppingBackBrowser : Browser :=
  mkBrowser (fun k => match k with 0%nat => 1001%Z | _ => (999 + Z.of_nat k)%Z end)
            (fun z => numberToString z)
            (fun _ _ => Ok "data:image/png;base64,AAAA").

(** Two image files dropped together. *)
Definition twoDroppedFiles : list File.t :=
  [ File.mk "red_barn.png" "image/png" (Some "data:image/png;base64,AAAA");
    File.mk "old-truck.jpg" "image/jpeg" (Some "data:image/jpeg;base64,BBBB") ].


(* ===================================================================== *)
(** ** App.tsx: the other handlers                                        *)
(* ===================================================================== *)

(** Where [array.splice(start, ...)] starts in an array of [len]
    elements, for an integer [start]: a negative index counts from the
    end, and the result is clamped to the array. *)
Definition spliceStart (len : nat) (start : Z) : nat :=
  if (start <? 0)%Z then Z.to_nat (Z.max (Z.of_nat len + start) 0)
  else Nat.min (Z.to_nat start) len.

(** [array.splice(start, deleteCount, ...items)]: the removed elements
    and the array afterwards. *)
Definition splice {T : Type} (array : list T) (start deleteCount : Z)
    (items : list T) : list T * list T :=
  let actualStart := spliceStart (List.length array) start in
  let actualDeleteCount :=
    Nat.min (Z.to_nat (Z.max deleteCount 0))
            (List.length array - actualStart) in
  (firstn actualDeleteCount (skipn actualStart array),
   (firstn actualStart array ++ items
    ++ skipn (actualStart + actualDeleteCount) array)%list).

(** The array that [handleReorder], App.tsx lines 180-190, hands to
    [setList].  Its elements are options because [removed] is
    [undefined] when the first splice removes nothing, and is inserted
    all the same. *)
Definition handleReorder {T : Type} (items : list T)
    (startIndex endIndex : Z) : list (option T) :=
  let result := map Some items in
  let (removedItems, result) := splice result startIndex 1 [] in
  let removed := match removedItems with x :: _ => x | [] => None end in
  snd (splice result endIndex 0 [removed]).

(** The updater of the [onAdd] callbacks, App.tsx lines 429, 516 and
    523: [prev => [...prev, { id: Date.now(), name: `${noun}
    ${prev.length + 1}`, image: null }]], with [stamp] the clock
    reading. *)
Definition withNewElement (noun : string) (stamp : Z)
    (prev : list Character.t) : list Character.t :=
  (prev ++ [Character.mk stamp
              (noun ++ " "
               ++ numberToString (Z.of_nat (List.length prev) + 1)%Z)
              None])%list.

(** The updater of the [onRemove] callbacks, App.tsx lines 430, 438, 517
    and 524: [prev => prev.filter(c => c.id !== id)]. *)
Definition withoutElement (id : Z) (prev : list Character.t)
    : list Character.t :=
  filter (fun c => negb (Z.eqb (Character.id c) id)) prev.

(** [onAdd] of the main character list. *)
Definition addCharacter : M unit :=
  stamp <- dateNow ;;
  update (fun st => setCharacters (withNewElement "Character" stamp
                                     (characters st)) st).

(** [onRemove] of the main character list. *)
Definition removeCharacter (id : Z) : M unit :=
  update (fun st => setCharacters (withoutElement id (characters st)) st).

(** [handleDeleteFromHistory], App.tsx lines 367-369. *)
Definition handleDeleteFromHistory (id : string) : M unit :=
  update (fun st =>
            setHistory
              (filter (fun item => negb (String.eqb (HistoryItem.id item) id))
                      (history st))
              st).

(** [handleClearHistory], App.tsx lines 371-375; [confirmed] is the
    answer given to [window.confirm]. *)
Definition handleClearHistory (confirmed : bool) : M unit :=
  if confirmed then update (setHistory []) else ret tt.

(** The events that write the history. *)
Inductive HistoryEvent : Type :=
  | AddToHistory (image prompt : string) (type : HistoryType)
  | DeleteFromHistory (id : string)
  | ClearHistory (confirmed : bool).

Definition historyEvent (ev : HistoryEvent) : M unit :=
  match ev with
  | AddToHistory image prompt type => handleAddToHistory image prompt type
  | DeleteFromHistory id => handleDeleteFromHistory id
  | ClearHistory confirmed => handleClearHistory confirmed
  end.

Fixpoint historyEvents (evs : list HistoryEvent) : M unit :=
  match evs with
  | [] => ret tt
  | ev :: rest => historyEvent ev ;; historyEvents rest
  end.

(** [handleFileChange] of [ImageUploader], lines 27-46, run to the end
    of the read: [file] is [event.target.files?.[0]], and a read whose
    result is no string calls nothing. *)
Definition handleFileChange (file : option File.t)
    (onImageUpload : option ImageFile -> option string -> M unit) : M unit :=
  match file with
  | Some f =>
      match File.dataUrl f with
      | Some readerResult =>
          tryCatch
            (parsedImage <- lift (parseDataUrl readerResult) ;;
             onImageUpload (Some parsedImage) (Some (File.name f)))
            (fun error =>
               consoleError "Error parsing data URL:" ;;
               onImageUpload None None)
      | None => ret tt
      end
  | None => onImageUpload None None
  end.

(** The uploader of a main character: [EditableItem] passes
    [(img, fileName) => onImageUpload(elem.id, img, fileName)], and
    [App] passes [handleCharacterImageUpload]. *)
Definition uploadCharacterFile (id : Z) (file : option File.t) : M unit :=
  handleFileChange file
    (fun img fileName => update (handleCharacterImageUpload id img fileName)).

(** The cells of the edit tab that [App] above leaves out. *)
Record EditCells : Type := mkEditCells {
  editBaseImage : option ImageFile;
  editBaseImageName : option string;
  standaloneEditPrompt : string;
  editedImage : option string;
  editLoading : bool;
  editError : option string
}.

(** [isEditDisabled], App.tsx line 103. *)
Definition isEditDisabled (ed : EditCells) : bool :=
  negb (isSome (editBaseImage ed))
  || negb (truthy (trim (standaloneEditPrompt ed)))
  || editLoading ed.

(** [list.filter(c => c.image).map(c => `(${c.name})`).join(', ')] of
    the edit handler: the names are taken as they are. *)
Definition referenceNames (l : list Character.t) : string :=
  join ", "
    (map (fun c => "(" ++ Character.name c ++ ")")
         (filter (fun c => isSome (Character.image c)) l)).

(** The instruction that [handleApplyStandaloneEdit] builds, lines
    331-336. *)
Definition editPrompt (chars objs : list Character.t) (instruction : string)
    : string :=
  let prompt := "Apply this edit to the base image: " ++ instruction ++ "." in
  let prompt :=
    if truthy (referenceNames chars)
    then prompt ++ " Use the provided reference images for these characters: "
         ++ referenceNames chars ++ "."
    else prompt in
  if truthy (referenceNames objs)
  then prompt ++ " Use the provided reference images for these objects: "
       ++ referenceNames objs ++ "."
  else prompt.

(** The request of [handleApplyStandaloneEdit], lines 339-344. *)
Definition editRequest (st : App) (ed : EditCells) : Request.t :=
  Request.mk
    (editPrompt (editAddChars st) (editAddObjs st) (standaloneEditPrompt ed))
    (imagesOf (editAddChars st) ++ imagesOf (editAddObjs st))%list
    None (editBaseImage ed).

(** [handleApplyStandaloneEdit], App.tsx lines 322-352.  The cells of the
    edit tab are passed in and returned; the history lives in the world. *)
Definition handleApplyStandaloneEdit (ed : EditCells) : M EditCells :=
  fun br w =>
    if isEditDisabled ed then (Ok ed, w)
    else
      let request := editRequest (appState w) ed in
      match awaitGenerateStoryImage request br w with
      | (Ok resultImage, w1) =>
          match handleAddToHistory resultImage (Request.prompt request) Edit
                  br w1 with
          | (Ok _, w2) =>
              (Ok (mkEditCells (editBaseImage ed) (editBaseImageName ed)
                     (standaloneEditPrompt ed) (Some resultImage) false None),
               w2)
          | (Throw err, w2) =>
              (Ok (mkEditCells (editBaseImage ed) (editBaseImageName ed)
                     (standaloneEditPrompt ed) (Some resultImage) false
                     (Some (errorText err))),
               w2)
          end
      | (Throw err, w1) =>
          (Ok (mkEditCells (editBaseImage ed) (editBaseImageName ed)
                 (standaloneEditPrompt ed) None false (Some (errorText err))),
           w1)
      end.

(* ===================================================================== *)
(** ** components/GeneratedImageDisplay.tsx                               *)
(* ===================================================================== *)

(** What [GeneratedImageDisplay] can mount, lines 48-72. *)
Inductive Panel : Type :=
  | LoadingSpinner
  | ErrorPanel (message : string)
  | ImageGrid (columns : nat) (images : list string)
  | Placeholder.

Definition someTruthy (error : option string) : bool :=
  match error with Some message => truthy message | None => false end.

(** The children that [GeneratedImageDisplay] renders, in order. *)
Definition generatedImageDisplay (images : list string) (isLoading : bool)
    (error : option string) : list Panel :=
  let gridClass := if (1 <? List.length images)%nat then 2%nat else 1%nat in
  ((if isLoading then [LoadingSpinner] else [])
   ++ (if negb isLoading && someTruthy error
       then [ErrorPanel (match error with Some m => m | None => "" end)]
       else [])
   ++ (if negb isLoading && negb (someTruthy error)
          && (0 <? List.length images)%nat
       then [ImageGrid gridClass images] else [])
   ++ (if negb isLoading && negb (someTruthy error)
          && (List.length images =? 0)%nat
       then [Placeholder] else []))%list.

(** The display of the generate tab, App.tsx line 501. *)
Definition generateTabDisplay (st : App) : list Panel :=
  generatedImageDisplay (generatedImages st) (genLoading st) (genError st).

(** The images that a run of the generation loop is given before its
    first failure, and that failure: the outcomes of the calls numbered
    [call], [call + 1], ... of at most [remaining] calls. *)
Fixpoint deliveredImages (br : Browser) (request : Request.t)
    (call remaining : nat) : list string :=
  match remaining with
  | O => []
  | S remaining' =>
      match generateStoryImage br call request with
      | Ok image => image :: deliveredImages br request (S call) remaining'
      | Throw _ => []
      end
  end.

Fixpoint firstFailure (br : Browser) (request : Request.t)
    (call remaining : nat) : option Thrown :=
  match remaining with
  | O => None
  | S remaining' =>
      match generateStoryImage br call request with
      | Ok _ => firstFailure br request (S call) remaining'
      | Throw e => Some e
      end
  end.


(** The list with its [i]-th element taken out. *)
Definition without {T : Type} (i : nat) (l : list T) : list T :=
  (firstn i l ++ skipn (S i) l)%list.

(** The history after pushing [items] one after the other, oldest
    first. *)
Definition pushAll (items : list HistoryItem.t) (h : list HistoryItem.t)
    : list HistoryItem.t :=
  fold_left (fun h item => pushHistory item h) items h.

(** The arguments of the history additions of a generation run. *)
Definition generationAdds (request : Request.t) (images : list string)
    : list (string * string * HistoryType) :=
  map (fun image => (image, Request.prompt request, Gen)) images.

(** Whether the form holds anything that the prompt can point the model
    to: a character or an object with an image and a name that is not
    blank, a style image or a location image. *)
Definition hasReferences (st : App) : bool :=
  match qualified (characters st), qualified (additionalElements st),
        styleImage st, sceneLocationImage st with
  | [], [], None, None => false
  | _, _, _, _ => true
  end.

(** The character list after two additions. *)
Definition twoCharactersWorld : World :=
  mkWorld (setCharacters [ Character.mk 1 "Character 1" None;
                           Character.mk 1000 "Character 2" None ] initialApp)
          0 [] [].

(** A browser whose service fails at once with an error that carries an
    empty message. *)
Definition silentFailureBrowser : Browser :=
  mkBrowser (fun k => (1000 + Z.of_nat k)%Z)
            (fun z => numberToString z)
            (fun _ _ => Throw (ErrorObject EmptyString)).

(* ===================================================================== *)
(** ** Strings                                                            *)
(* ===================================================================== *)

Lemma append_assoc (a b c : string) : (a ++ b) ++ c = a ++ (b ++ c).
Proof.
  induction a as [|x a IH]; simpl; [reflexivity | now rewrite IH].
Qed.

Lemma contains_append c a b :
  contains c (a ++ b) = contains c a || contains c b.
Proof.
  induction a as [|x a IH]; simpl; [reflexivity|].
  rewrite IH. now rewrite orb_assoc.
Qed.

Lemma existsChar_append p a b :
  existsChar p (a ++ b) = existsChar p a || existsChar p b.
Proof.
  induction a as [|x a IH]; simpl; [reflexivity|].
  rewrite IH. now rewrite orb_assoc.
Qed.

Lemma split_nonempty sep s : split sep s <> [].
Proof.
  destruct s as [|c s]; simpl; [discriminate|].
  destruct (Ascii.eqb c sep); [discriminate|].
  destruct (split sep s); discriminate.
Qed.

(** A string without the separator is a single part. *)
Lemma split_without_separator sep s :
  contains sep s = false -> split sep s = [s].
Proof.
  induction s as [|c s IH]; simpl; [reflexivity|].
  intros H. apply orb_false_iff in H as [Hc Hs].
  rewrite Hc, (IH Hs). reflexivity.
Qed.

(** The first separator ends the first part. *)
Lemma split_at_first_separator sep a b :
  contains sep a = false ->
  split sep (a ++ String sep b) = a :: split sep b.
Proof.
  induction a as [|c a IH]; simpl; intros H.
  - now rewrite Ascii.eqb_refl.
  - apply orb_false_iff in H as [Hc Ha].
    rewrite Hc, (IH Ha). reflexivity.
Qed.

(** No part of a split holds a character that the string lacks. *)
Lemma split_parts_lack c sep s :
  contains c s = false ->
  Forall (fun p => contains c p = false) (split sep s).
Proof.
  induction s as [|x s IH]; simpl; intros H.
  - constructor; [reflexivity | constructor].
  - apply orb_false_iff in H as [Hx Hs]. specialize (IH Hs).
    destruct (Ascii.eqb x sep).
    + constructor; [reflexivity | exact IH].
    + destruct (split sep s) as [|p ps].
      * constructor; [simpl; now rewrite Hx | constructor].
      * inversion IH as [|? ? Hp Hps]; subst.
        constructor; [simpl; now rewrite Hx, Hp | exact Hps].
Qed.

Lemma lazyUntilSemicolon_needs_semicolon s :
  contains ";"%char s = false -> lazyUntilSemicolon s = None.
Proof.
  induction s as [|c s IH]; simpl; [reflexivity|].
  intros H. apply orb_false_iff in H as [Hc Hs].
  rewrite Hc, (IH Hs). now destruct (isLineTerminator c).
Qed.

Lemma matchMime_needs_semicolon s :
  contains ";"%char s = false -> matchMime s = None.
Proof.
  induction s as [|c s IH]; simpl; [reflexivity|].
  intros H. apply orb_false_iff in H as [Hc Hs].
  rewrite (lazyUntilSemicolon_needs_semicolon s Hs), (IH Hs).
  now destruct (Ascii.eqb c ":"%char).
Qed.

(** The group stops at the first semicolon: a run free of semicolons and
    of line terminators is captured whole. *)
Lemma lazyUntilSemicolon_exact g rest :
  contains ";"%char g = false ->
  existsChar isLineTerminator g = false ->
  lazyUntilSemicolon (g ++ String ";"%char rest) = Some g.
Proof.
  induction g as [|c g IH]; simpl; intros Hs Hl; [reflexivity|].
  apply orb_false_iff in Hs as [Hc Hs].
  apply orb_false_iff in Hl as [Hlc Hl].
  rewrite Hc, Hlc, (IH Hs Hl). reflexivity.
Qed.

(** On a run free of line terminators that a semicolon follows, the
    group is found, and it is free of semicolons, of line terminators and
    of whatever character the run is free of. *)
Lemma lazyUntilSemicolon_finds m rest :
  existsChar isLineTerminator m = false ->
  exists g,
    lazyUntilSemicolon (m ++ String ";"%char rest) = Some g
    /\ contains ";"%char g = false
    /\ existsChar isLineTerminator g = false
    /\ (forall c, contains c m = false -> contains c g = false).
Proof.
  induction m as [|x m IH]; simpl; intros Hl.
  - exists EmptyString. repeat split; reflexivity.
  - apply orb_false_iff in Hl as [Hlx Hl].
    destruct (Ascii.eqb x ";"%char) eqn:Hx.
    + exists EmptyString. repeat split; reflexivity.
    + rewrite Hlx. destruct (IH Hl) as (g & Hg & Hs & Hlt & Hc).
      rewrite Hg. exists (String x g). repeat split; simpl.
      * now rewrite Hx, Hs.
      * now rewrite Hlx, Hlt.
      * intros c Hcm. apply orb_false_iff in Hcm as [Hcx Hcm].
        now rewrite Hcx, (Hc c Hcm).
Qed.

(* ===================================================================== *)
(** ** The image codec                                                    *)
(* ===================================================================== *)

(** The half of the decoding contract the code keeps: without a
    semicolon there is nothing to match and the parse throws. *)
Lemma parseDataUrl_without_semicolon_throws s :
  contains ";"%char s = false -> parseDataUrl s = Throw invalidDataUrl.
Proof.
  intros H. unfold parseDataUrl.
  pose proof (split_parts_lack ";"%char ","%char s H) as Hparts.
  destruct (split ","%char s) as [|part0 rest] eqn:E.
  - now apply split_nonempty in E.
  - inversion Hparts as [|? ? H0 _]; subst.
    now rewrite (matchMime_needs_semicolon part0 H0).
Qed.

(** C3, at the input that breaks it: a string with the colon and the
    semicolon but no comma is not refused; the parse returns a record
    whose payload is [undefined]. *)
Theorem parseDataUrl_without_comma_returns_partial_record :
  contains ","%char "data:image/png;base64" = false
  /\ parseDataUrl "data:image/png;base64"
     = Ok {| base64 := None; mimeType := "image/png" |}.
Proof. split; reflexivity. Qed.

(** What [parseDataUrl] does on an encoded-image string whose media type
    holds no comma and no line terminator. *)
Lemma parseDataUrl_dataUrlOf mediaType payload :
  contains ","%char mediaType = false ->
  existsChar isLineTerminator mediaType = false ->
  contains ","%char payload = false ->
  exists mime,
    parseDataUrl (dataUrlOf mediaType payload)
    = Ok {| base64 := Some payload; mimeType := mime |}
    /\ contains ";"%char mime = false
    /\ contains ","%char mime = false
    /\ existsChar isLineTerminator mime = false.
Proof.
  intros Hc Hl Hp.
  destruct (lazyUntilSemicolon_finds mediaType "base64" Hl)
    as (g & Hg & Hs & Hlt & Hfree).
  exists g. repeat split; auto.
  unfold parseDataUrl, dataUrlOf.
  replace ("data:" ++ mediaType ++ ";base64," ++ payload)
    with (("data:" ++ mediaType ++ ";base64") ++ String ","%char payload)
    by (simpl; rewrite append_assoc; reflexivity).
  rewrite split_at_first_separator
    by (simpl; rewrite contains_append, Hc; reflexivity).
  rewrite (split_without_separator _ _ Hp).
  cbn [nth_error].
  change (matchMime ("data:" ++ mediaType ++ ";base64"))
    with (match lazyUntilSemicolon (mediaType ++ ";base64") with
          | Some g => Some g
          | None => matchMime (mediaType ++ ";base64")
          end).
  change (mediaType ++ ";base64")
    with (mediaType ++ String ";"%char "base64").
  rewrite Hg. reflexivity.
Qed.

(** C4: for an encoded-image string whose media type is not empty and,
    as every MIME type, holds no comma and no line break, and whose
    payload holds no comma, decoding succeeds and the record survives a
    trip through the rendering template and back. *)
Theorem encode_decode_round_trip mediaType payload :
  mediaType <> "" ->
  contains ","%char mediaType = false ->
  existsChar isLineTerminator mediaType = false ->
  contains ","%char payload = false ->
  exists record,
    parseDataUrl (dataUrlOf mediaType payload) = Ok record
    /\ parseDataUrl (imageSrc record) = Ok record.
Proof.
  intros _ Hc Hl Hp.
  destruct (parseDataUrl_dataUrlOf mediaType payload Hc Hl Hp)
    as (mime & Hparse & Hs & Hcm & Hlm).
  eexists. split; [exact Hparse|].
  destruct (parseDataUrl_dataUrlOf mime payload Hcm Hlm Hp)
    as (mime' & Hparse' & _).
  unfold imageSrc. cbn [base64 mimeType interpolate].
  change ("data:" ++ mime ++ ";base64," ++ payload)
    with (dataUrlOf mime payload).
  rewrite Hparse'. do 2 f_equal.
  (* the second group is the first one again *)
  unfold parseDataUrl, dataUrlOf in Hparse'.
  replace ("data:" ++ mime ++ ";base64," ++ payload)
    with (("data:" ++ mime ++ ";base64") ++ String ","%char payload)
    in Hparse' by (simpl; rewrite append_assoc; reflexivity).
  rewrite split_at_first_separator in Hparse'
    by (simpl; rewrite contains_append, Hcm; reflexivity).
  change (matchMime ("data:" ++ mime ++ ";base64"))
    with (match lazyUntilSemicolon (mime ++ String ";"%char "base64") with
          | Some g => Some g
          | None => matchMime (mime ++ ";base64")
          end) in Hparse'.
  rewrite (lazyUntilSemicolon_exact mime "base64" Hs Hlm) in Hparse'.
  now inversion Hparse'.
Qed.

Lemma encode_decode_round_trip_witness :
  exists record,
    parseDataUrl (dataUrlOf "image/png" "iVBORw0KGgo=") = Ok record
    /\ parseDataUrl (imageSrc record) = Ok record.
Proof.
  apply (encode_decode_round_trip "image/png" "iVBORw0KGgo=");
    [discriminate | reflexivity | reflexivity | reflexivity].
Defined.

(** Why the media type has to be free of commas: the string is split at
    its first comma before the media type is looked for, so a comma
    inside the media type leaves nothing to decode. *)
Lemma no_round_trip_with_comma_in_media_type :
  ~ (forall mediaType payload,
       mediaType <> "" ->
       contains ","%char payload = false ->
       exists record,
         parseDataUrl (dataUrlOf mediaType payload) = Ok record
         /\ parseDataUrl (imageSrc record) = Ok record).
Proof.
  intros H.
  destruct (H "a,b" "x") as (record & Hparse & _);
    [discriminate | reflexivity | discriminate Hparse].
Qed.

(* ===================================================================== *)
(** ** The prompt assembler                                               *)
(* ===================================================================== *)

(** C7: with an empty scene, no characters, no objects, no location and
    no style image, lighting L, camera C and ratio 16:9, the prompt is
    the aspect-ratio clause, the lighting clause and the camera clause,
    joined by single spaces, and nothing else. *)
Theorem minimal_prompt_exact h n p imgs loading err ec eo :
  filter truthy (promptParts (minimalState h n p imgs loading err ec eo))
  = [ "A cinematic scene with a strict aspect ratio of 16:9.";
      "The lighting should be L.";
      "Use a C." ]
  /\ generatedPrompt
       (promptGeneratorEffect (minimalState h n p imgs loading err ec eo))
     = "A cinematic scene with a strict aspect ratio of 16:9. The lighting should be L. Use a C.".
Proof. split; reflexivity. Qed.

Lemma filter_idempotent {A : Type} (f : A -> bool) (l : list A) :
  filter f (filter f l) = filter f l.
Proof.
  induction l as [|x l IH]; simpl; [reflexivity|].
  destruct (f x) eqn:E; simpl; [rewrite E, IH|]; auto.
Qed.

Lemma parenthesizedNames_qualified l :
  parenthesizedNames (qualified l) = parenthesizedNames l.
Proof.
  unfold parenthesizedNames, qualified. now rewrite filter_idempotent.
Qed.

Lemma parenthesizedNames_none l :
  qualified l = [] -> parenthesizedNames l = "".
Proof. unfold parenthesizedNames, qualified. now intros ->. Qed.

Lemma parenthesizedNames_some l :
  qualified l <> [] -> truthy (parenthesizedNames l) = true.
Proof.
  unfold parenthesizedNames, qualified, join.
  destruct (filter namedWithImage l) as [|c [|d r]]; [congruence| |];
    intros _; reflexivity.
Qed.




(* ===================================================================== *)
(** ** The history store                                                  *)
(* ===================================================================== *)

Lemma firstn_app_firstn {A : Type} (n : nat) (a b : list A) :
  firstn n (a ++ firstn n b)%list = firstn n (a ++ b)%list.
Proof.
  rewrite !firstn_app, firstn_firstn.
  now replace (Nat.min (n - List.length a) n) with (n - List.length a)%nat by lia.
Qed.

(** An addition whose image parses reads the clock twice and pushes the
    new entry. *)
Lemma handleAddToHistory_parsed image parsed prompt type br w :
  parseDataUrl image = Ok parsed ->
  handleAddToHistory image prompt type br w
  = (Ok tt,
     mkWorld (setHistory (pushHistory (entryAt br (ticks w) parsed prompt type)
                                      (history (appState w)))
                         (appState w))
             (S (S (ticks w))) (requests w) (console w)).
Proof.
  intros H. unfold handleAddToHistory, tryCatch, bind, dateNow, lift, update.
  cbn. rewrite H. reflexivity.
Qed.

(** An addition whose image does not parse reads the clock once, logs,
    and leaves the React state alone. *)
Lemma handleAddToHistory_unparsed image e prompt type br w :
  parseDataUrl image = Throw e ->
  handleAddToHistory image prompt type br w
  = (Ok tt,
     mkWorld (appState w) (S (ticks w)) (requests w)
             (console w ++ ["Failed to parse image for history:"])%list).
Proof.
  intros H. unfold handleAddToHistory, tryCatch, bind, dateNow, lift,
    consoleError.
  cbn. rewrite H. reflexivity.
Qed.

Lemma addAll_history adds : forall br w,
  (List.length (history (appState w)) <= MAX_HISTORY_ITEMS)%nat ->
  history (appState (snd (addAll adds br w)))
  = firstn MAX_HISTORY_ITEMS
      (rev (createdItems br (ticks w) adds) ++ history (appState w))%list.
Proof.
  induction adds as [|[[image prompt] type] rest IH]; intros br w Hlen.
  - cbn [addAll createdItems rev List.app]. unfold ret. cbn [snd].
    now rewrite firstn_all2.
  - cbn [addAll createdItems]. unfold bind at 1.
    destruct (parseDataUrl image) as [parsed|e] eqn:Hparse.
    + rewrite (handleAddToHistory_parsed _ _ _ _ _ _ Hparse).
      rewrite IH; cbn [appState ticks].
      * destruct (appState w); cbn [history setHistory].
        unfold pushHistory. rewrite firstn_app_firstn.
        cbn [rev]. now rewrite <- app_assoc.
      * destruct (appState w); cbn [history setHistory].
        apply firstn_le_length.
    + rewrite (handleAddToHistory_unparsed _ _ _ _ _ _ Hparse).
      now rewrite IH.
Qed.

(** C1: an addition puts the new entry at the head and keeps at most 20
    entries; from a history within the cap, any sequence of additions
    leaves the entries created, newest first, ahead of the older ones,
    cut at 20; so the length stays within 20, and once more than 20
    entries have been created the history is exactly the last 20 of
    them, newest first. *)
Theorem history_newest_first_capped br w adds :
  (List.length (history (appState w)) <= MAX_HISTORY_ITEMS)%nat ->
  (forall item prev, pushHistory item prev = item :: firstn 19 prev)
  /\ history (appState (snd (addAll adds br w)))
     = firstn MAX_HISTORY_ITEMS
         (rev (createdItems br (ticks w) adds) ++ history (appState w))%list
  /\ (List.length (history (appState (snd (addAll adds br w))))
      <= MAX_HISTORY_ITEMS)%nat
  /\ ((MAX_HISTORY_ITEMS < List.length (createdItems br (ticks w) adds))%nat ->
      history (appState (snd (addAll adds br w)))
      = rev (skipn (List.length (createdItems br (ticks w) adds)
                    - MAX_HISTORY_ITEMS)
                   (createdItems br (ticks w) adds))).
Proof.
  intros Hlen. pose proof (addAll_history adds br w Hlen) as Heq.
  split; [reflexivity|]. split; [exact Heq|]. split.
  - rewrite Heq. apply firstn_le_length.
  - intros Hmany. rewrite Heq, firstn_app, <- firstn_rev.
    rewrite length_rev.
    replace (MAX_HISTORY_ITEMS
             - List.length (createdItems br (ticks w) adds))%nat
      with 0%nat by lia.
    cbn [firstn]. now rewrite app_nil_r.
Qed.

Lemma history_newest_first_capped_witness :
  history (appState (snd (addAll
    (repeat ("data:image/png;base64,AAAA", "a prompt", Gen) 21)
    exampleBrowser initialWorld)))
  = rev (skipn 1 (createdItems exampleBrowser 0
                    (repeat ("data:image/png;base64,AAAA", "a prompt", Gen) 21))).
Proof.
  refine (proj2 (proj2 (proj2
    (history_newest_first_capped exampleBrowser initialWorld
       (repeat ("data:image/png;base64,AAAA", "a prompt", Gen) 21) _))) _).
  - cbn. lia.
  - vm_compute. lia.
Defined.

(* ===================================================================== *)
(** ** The generation orchestrator                                        *)
(* ===================================================================== *)

(** One iteration whose service call delivers [resultImage]. *)
Lemma generateLoop_delivered remaining request all br w resultImage :
  generateStoryImage br (List.length (requests w)) request = Ok resultImage ->
  generateLoop (S remaining) request all br w
  = (handleAddToHistory resultImage (Request.prompt request) Gen ;;
     generateLoop remaining request (all ++ [resultImage])%list) br
      (mkWorld (setGeneratedImages (all ++ [resultImage])%list (appState w))
               (ticks w) (requests w ++ [request])%list (console w)).
Proof.
  intros H. cbn [generateLoop]. unfold bind at 1.
  unfold awaitGenerateStoryImage. rewrite H.
  unfold bind at 1. unfold update at 1. reflexivity.
Qed.

(** One iteration whose service call throws: the loop is left at once. *)
Lemma generateLoop_failed remaining request all br w e :
  generateStoryImage br (List.length (requests w)) request = Throw e ->
  generateLoop (S remaining) request all br w
  = (Throw e,
     mkWorld (appState w) (ticks w) (requests w ++ [request])%list (console w)).
Proof.
  intros H. cbn [generateLoop]. unfold bind at 1.
  unfold awaitGenerateStoryImage. rewrite H. reflexivity.
Qed.

(** What the handler does around the loop. *)
Lemma handleGenerateClick_enabled br w :
  isGenerationDisabled (appState w) = false ->
  handleGenerateClick br w
  = tryFinally
      (tryCatch
         (generateLoop (Z.to_nat (numberOfImages (appState w)))
                       (generationRequest (appState w)) [])
         (fun err => update (setGenError (Some (errorText err)))))
      (update (setGenLoading false)) br
      (mkWorld (setGeneratedImages []
                  (setGenError None (setGenLoading true (appState w))))
               (ticks w) (requests w) (console w)).
Proof.
  intros H. unfold handleGenerateClick. rewrite H. reflexivity.
Qed.

(** The world after a click whose first call delivers a parseable image
    and whose second call throws. *)
Lemma handleGenerateClick_second_call_fails br w img1 parsed1 e n :
  isGenerationDisabled (appState w) = false ->
  Z.to_nat (numberOfImages (appState w)) = S (S n) ->
  generateStoryImage br (List.length (requests w))
                     (generationRequest (appState w)) = Ok img1 ->
  generateStoryImage br (S (List.length (requests w)))
                     (generationRequest (appState w)) = Throw e ->
  parseDataUrl img1 = Ok parsed1 ->
  handleGenerateClick br w
  = (Ok tt,
     mkWorld
       (setGenLoading false
          (setGenError (Some (errorText e))
             (setHistory
                (pushHistory
                   (entryAt br (ticks w) parsed1
                            (generatedPrompt (appState w)) Gen)
                   (history (appState w)))
                (setGeneratedImages [img1]
                   (setGeneratedImages []
                      (setGenError None
                         (setGenLoading true (appState w))))))))
       (S (S (ticks w)))
       ((requests w ++ [generationRequest (appState w)])
          ++ [generationRequest (appState w)])%list
       (console w)).
Proof.
  intros Henabled Hn Hfirst Hsecond Hparse.
  rewrite (handleGenerateClick_enabled br w Henabled), Hn.
  unfold tryFinally, tryCatch.
  rewrite (generateLoop_delivered (S n) _ [] br _ img1) by exact Hfirst.
  unfold bind at 1.
  rewrite (handleAddToHistory_parsed _ _ _ _ _ _ Hparse).
  cbn [appState ticks requests console].
  rewrite (generateLoop_failed n _ _ br _ e)
    by (cbn [requests]; rewrite length_app, Nat.add_comm; exact Hsecond).
  unfold update. cbn [appState ticks requests console].
  destruct (appState w); reflexivity.
Qed.

(** The same click when the first image does not parse: the history is
    as before and one line is logged. *)
Lemma handleGenerateClick_second_call_fails_unparsed br w img1 e1 e n :
  isGenerationDisabled (appState w) = false ->
  Z.to_nat (numberOfImages (appState w)) = S (S n) ->
  generateStoryImage br (List.length (requests w))
                     (generationRequest (appState w)) = Ok img1 ->
  generateStoryImage br (S (List.length (requests w)))
                     (generationRequest (appState w)) = Throw e ->
  parseDataUrl img1 = Throw e1 ->
  handleGenerateClick br w
  = (Ok tt,
     mkWorld
       (setGenLoading false
          (setGenError (Some (errorText e))
             (setGeneratedImages [img1]
                (setGeneratedImages []
                   (setGenError None
                      (setGenLoading true (appState w)))))))
       (S (ticks w))
       ((requests w ++ [generationRequest (appState w)])
          ++ [generationRequest (appState w)])%list
       (console w ++ ["Failed to parse image for history:"])%list).
Proof.
  intros Henabled Hn Hfirst Hsecond Hparse.
  rewrite (handleGenerateClick_enabled br w Henabled), Hn.
  unfold tryFinally, tryCatch.
  rewrite (generateLoop_delivered (S n) _ [] br _ img1) by exact Hfirst.
  unfold bind at 1.
  rewrite (handleAddToHistory_unparsed _ _ _ _ _ _ Hparse).
  cbn [appState ticks requests console].
  rewrite (generateLoop_failed n _ _ br _ e)
    by (cbn [requests]; rewrite length_app, Nat.add_comm; exact Hsecond).
  reflexivity.
Qed.

(** C2: three images are requested, the first call delivers an encoded
    image and the second call throws an error.  The loop stops there: two
    requests were sent and no third; the handler returns; the result list
    holds the first image alone; the history has gained one entry, tagged
    gen, for that image, ahead of the entries it had; the error shown is
    the message of the failure; and the loading flag is down. *)
Theorem second_call_fails_first_result_kept br w img1 parsed1 message :
  isGenerationDisabled (appState w) = false ->
  numberOfImages (appState w) = 3%Z ->
  generateStoryImage br (List.length (requests w))
                     (generationRequest (appState w)) = Ok img1 ->
  parseDataUrl img1 = Ok parsed1 ->
  generateStoryImage br (S (List.length (requests w)))
                     (generationRequest (appState w))
  = Throw (ErrorObject message) ->
  fst (handleGenerateClick br w) = Ok tt
  /\ generatedImages (appState (snd (handleGenerateClick br w))) = [img1]
  /\ history (appState (snd (handleGenerateClick br w)))
     = pushHistory
         (HistoryItem.mk ("gen-" ++ numberToString (now br (ticks w)))
                         parsed1 (generatedPrompt (appState w))
                         (toISOString br (now br (S (ticks w)))))
         (history (appState w))
  /\ genError (appState (snd (handleGenerateClick br w))) = Some message
  /\ genLoading (appState (snd (handleGenerateClick br w))) = false
  /\ requests (snd (handleGenerateClick br w))
     = (requests w ++ [generationRequest (appState w);
                       generationRequest (appState w)])%list.
Proof.
  intros Henabled Hn Hfirst Hparse Hsecond.
  rewrite (handleGenerateClick_second_call_fails br w img1 parsed1
             (ErrorObject message) 1 Henabled
             ltac:(rewrite Hn; reflexivity) Hfirst Hsecond Hparse).
  cbn [fst snd appState requests]. rewrite <- app_assoc.
  destruct (appState w). repeat split; reflexivity.
Qed.

Lemma second_call_fails_first_result_kept_witness :
  generatedImages
    (appState (snd (handleGenerateClick exampleBrowser threeImagesWorld)))
  = ["data:image/png;base64,AAAA"]
  /\ map HistoryItem.id
       (history
          (appState (snd (handleGenerateClick exampleBrowser threeImagesWorld))))
     = ["gen-1000"]
  /\ genError
       (appState (snd (handleGenerateClick exampleBrowser threeImagesWorld)))
     = Some "quota exceeded".
Proof.
  pose proof (second_call_fails_first_result_kept exampleBrowser
                threeImagesWorld "data:image/png;base64,AAAA"
                (mkImageFile (Some "AAAA") "image/png") "quota exceeded"
                eq_refl eq_refl eq_refl eq_refl eq_refl)
    as (_ & Himages & Hhistory & Herror & _).
  split; [exact Himages|]. split; [|exact Herror].
  rewrite Hhistory. reflexivity.
Defined.


(** A single generation whose result is no data URL ends as a success:
    the result is shown, no error is set, and the history is as before. *)
Lemma single_generation_without_history_entry br w resultImage e :
  isGenerationDisabled (appState w) = false ->
  numberOfImages (appState w) = 1%Z ->
  generateStoryImage br (List.length (requests w))
                     (generationRequest (appState w)) = Ok resultImage ->
  parseDataUrl resultImage = Throw e ->
  handleGenerateClick br w
  = (Ok tt,
     mkWorld
       (setGenLoading false
          (setGeneratedImages [resultImage]
             (setGeneratedImages []
                (setGenError None (setGenLoading true (appState w))))))
       (S (ticks w))
       (requests w ++ [generationRequest (appState w)])%list
       (console w ++ ["Failed to parse image for history:"])%list).
Proof.
  intros Henabled Hn Hcall Hparse.
  rewrite (handleGenerateClick_enabled br w Henabled), Hn.
  change (Z.to_nat 1) with 1%nat.
  unfold tryFinally, tryCatch.
  rewrite (generateLoop_delivered 0 _ [] br _ resultImage) by exact Hcall.
  unfold bind at 1.
  rewrite (handleAddToHistory_unparsed _ _ _ _ _ _ Hparse).
  reflexivity.
Qed.


(* ===================================================================== *)
(** ** Bulk addition of dropped files                                     *)
(* ===================================================================== *)

Lemma promiseAll_rejects {A : Type} (promises : list (result A)) e :
  In (Throw e) promises -> exists e', promiseAll promises = Throw e'.
Proof.
  induction promises as [|p ps IH]; intros Hin; [destruct Hin|].
  destruct p as [a|e0]; cbn [promiseAll]; [|now exists e0].
  destruct Hin as [Hp|Hin]; [discriminate|].
  destruct (IH Hin) as (e' & ->). now exists e'.
Qed.

Lemma promiseAll_resolves {A B : Type} (f : A -> result B) l data :
  promiseAll (map f l) = Ok data -> Forall2 (fun x d => f x = Ok d) l data.
Proof.
  revert data. induction l as [|x l IH]; cbn [map promiseAll]; intros data H.
  - injection H as <-. constructor.
  - destruct (f x) as [b|e] eqn:Hx; [|discriminate].
    destruct (promiseAll (map f l)) as [ds|e]; [|discriminate].
    injection H as <-. constructor; [exact Hx | now apply IH].
Qed.

(** The world after a batch in which a promise was rejected. *)
Lemma handleAdditionalElementsFilesAdd_rejected files br w e :
  promiseAll (map filePromise (filter isImageFile files)) = Throw e ->
  handleAdditionalElementsFilesAdd files br w
  = (Ok tt,
     mkWorld (setGenError (Some bulkErrorMessage) (appState w))
             (ticks w) (requests w)
             (console w ++ ["Error processing dropped files:"])%list).
Proof.
  intros H. unfold handleAdditionalElementsFilesAdd, tryCatch.
  unfold bind at 1. unfold lift. rewrite H. reflexivity.
Qed.

(** C5: when one image file of the batch fails to decode, the handler
    ends with the whole React state as it was, but for the error cell,
    which holds the one message of the batch; the element list is
    untouched, and one line is logged. *)
Theorem bulk_add_failure_leaves_list_unchanged br w files file e :
  In file files ->
  isImageFile file = true ->
  filePromise file = Throw e ->
  handleAdditionalElementsFilesAdd files br w
  = (Ok tt,
     mkWorld (setGenError (Some bulkErrorMessage) (appState w))
             (ticks w) (requests w)
             (console w ++ ["Error processing dropped files:"])%list)
  /\ additionalElements (setGenError (Some bulkErrorMessage) (appState w))
     = additionalElements (appState w)
  /\ genError (setGenError (Some bulkErrorMessage) (appState w))
     = Some bulkErrorMessage.
Proof.
  intros Hin Himg Hfail.
  assert (Hrej : In (Throw e) (map filePromise (filter isImageFile files))).
  { rewrite <- Hfail. apply in_map, filter_In. now split. }
  destruct (promiseAll_rejects _ _ Hrej) as (e' & He').
  split; [now apply (handleAdditionalElementsFilesAdd_rejected _ _ _ e')|].
  destruct (appState w). split; reflexivity.
Qed.

Lemma bulk_add_failure_leaves_list_unchanged_witness :
  handleAdditionalElementsFilesAdd
    (twoDroppedFiles ++ [File.mk "torn.png" "image/png" (Some "garbage")])%list
    exampleBrowser initialWorld
  = (Ok tt,
     mkWorld (setGenError (Some bulkErrorMessage) initialApp) 0 []
             ["Error processing dropped files:"]).
Proof.
  refine (proj1 (bulk_add_failure_leaves_list_unchanged exampleBrowser
                   initialWorld _ (File.mk "torn.png" "image/png" (Some "garbage"))
                   invalidDataUrl _ _ _)).
  - cbn. right. right. left. reflexivity.
  - reflexivity.
  - reflexivity.
Defined.

Lemma mapWithIndex_builtElements data : forall index br w,
  mapWithIndex
    (fun d i =>
       stamp <- dateNow ;;
       ret (Character.mk (stamp + i)%Z (fst d) (Some (snd d))))
    data index br w
  = (Ok (builtElements br (ticks w) index data),
     mkWorld (appState w) (ticks w + List.length data) (requests w) (console w)).
Proof.
  induction data as [|d rest IH]; intros index br w.
  - cbn. rewrite Nat.add_0_r. now destruct w.
  - cbn [mapWithIndex builtElements List.length].
    unfold bind at 1. unfold bind at 1. unfold dateNow at 1.
    unfold ret at 1. unfold bind at 1. rewrite IH.
    cbn [appState ticks requests console]. unfold ret.
    now rewrite Nat.add_succ_r.
Qed.

(** The world after a batch in which every promise resolved. *)
Lemma handleAdditionalElementsFilesAdd_resolved files br w data :
  promiseAll (map filePromise (filter isImageFile files)) = Ok data ->
  handleAdditionalElementsFilesAdd files br w
  = (Ok tt,
     mkWorld
       (setAdditionalElements
          (additionalElements (appState w)
           ++ builtElements br (ticks w) 0 data)%list
          (appState w))
       (ticks w + List.length data) (requests w) (console w)).
Proof.
  intros H. unfold handleAdditionalElementsFilesAdd, tryCatch.
  unfold bind at 1. unfold lift. rewrite H.
  unfold bind at 1. rewrite mapWithIndex_builtElements. reflexivity.
Qed.

Lemma builtElements_nth br data : forall tick index i d,
  nth_error data i = Some d ->
  nth_error (builtElements br tick index data) i
  = Some (Character.mk (now br (tick + i) + (index + Z.of_nat i))%Z
                       (fst d) (Some (snd d))).
Proof.
  induction data as [|x rest IH]; intros tick index i d H.
  - destruct i; discriminate.
  - destruct i as [|i]; cbn [nth_error builtElements] in *.
    + injection H as ->. now rewrite Nat.add_0_r, Z.add_0_r.
    + rewrite (IH _ _ _ _ H). do 3 f_equal; [f_equal|]; lia.
Qed.

Lemma clockSteady_next br tick : clockSteady br tick -> clockSteady br (S tick).
Proof. intros H a b Ha Hab. apply H; lia. Qed.

Lemma builtElements_ids_bounded br data : forall tick index x,
  clockSteady br tick ->
  In x (map Character.id (builtElements br tick index data)) ->
  (now br tick + index <= x)%Z.
Proof.
  induction data as [|d rest IH]; intros tick index x Hclock Hin;
    cbn [builtElements map] in Hin; [destruct Hin|].
  destruct Hin as [<-|Hin]; [cbn; lia|].
  apply IH in Hin; [|now apply clockSteady_next].
  pose proof (Hclock tick (S tick)). lia.
Qed.

Lemma builtElements_ids_distinct br data : forall tick index,
  clockSteady br tick ->
  NoDup (map Character.id (builtElements br tick index data)).
Proof.
  induction data as [|d rest IH]; intros tick index Hclock;
    cbn [builtElements map]; constructor.
  - intros Hin. cbn [Character.id] in Hin.
    apply builtElements_ids_bounded in Hin; [|now apply clockSteady_next].
    pose proof (Hclock tick (S tick)). lia.
  - apply IH. now apply clockSteady_next.
Qed.

(** C10, as the code has it: when every image file of the batch decodes,
    the elements are appended after the existing ones in the order of the
    image files; the one at position i carries the name and the image of
    the i-th image file and, as identifier, the clock reading taken for
    it plus i; the clock is read once per element.  If the clock does not
    run backwards during the batch, these identifiers are pairwise
    distinct. *)
Theorem bulk_add_ids_follow_clock_and_position br w files data :
  promiseAll (map filePromise (filter isImageFile files)) = Ok data ->
  handleAdditionalElementsFilesAdd files br w
  = (Ok tt,
     mkWorld
       (setAdditionalElements
          (additionalElements (appState w)
           ++ builtElements br (ticks w) 0 data)%list
          (appState w))
       (ticks w + List.length data) (requests w) (console w))
  /\ Forall2 (fun file d => filePromise file = Ok d)
             (filter isImageFile files) data
  /\ (forall i d, nth_error data i = Some d ->
        nth_error (builtElements br (ticks w) 0 data) i
        = Some (Character.mk (now br (ticks w + i) + Z.of_nat i)%Z
                             (fst d) (Some (snd d))))
  /\ (clockSteady br (ticks w) ->
      NoDup (map Character.id (builtElements br (ticks w) 0 data))).
Proof.
  intros H. split; [now apply handleAdditionalElementsFilesAdd_resolved|].
  split; [now apply promiseAll_resolves|]. split.
  - intros i d Hd. now rewrite (builtElements_nth _ _ _ _ _ _ Hd).
  - apply builtElements_ids_distinct.
Qed.

Lemma bulk_add_ids_follow_clock_and_position_witness :
  additionalElements
    (appState (snd (handleAdditionalElementsFilesAdd twoDroppedFiles
                      exampleBrowser initialWorld)))
  = [ Character.mk 1000 "red barn"
        (Some (mkImageFile (Some "AAAA") "image/png"));
      Character.mk 1002 "old truck"
        (Some (mkImageFile (Some "BBBB") "image/jpeg")) ]
  /\ NoDup [1000; 1002]%Z.
Proof.
  pose proof (bulk_add_ids_follow_clock_and_position exampleBrowser
                initialWorld twoDroppedFiles
                [ ("red barn", mkImageFile (Some "AAAA") "image/png");
                  ("old truck", mkImageFile (Some "BBBB") "image/jpeg") ]
                eq_refl) as (Hrun & _ & _ & Hdistinct).
  split.
  - rewrite Hrun. reflexivity.
  - apply Hdistinct. intros a b _ Hab. cbn [now exampleBrowser]. lia.
Defined.

(** C10 as stated fails: the clock is read for each element, so the
    identifiers of a batch need not be one timestamp plus the position. *)
Lemma bulk_add_ids_are_not_one_timestamp_plus_position :
  ~ exists timestamp,
      map Character.id
        (additionalElements
           (appState (snd (handleAdditionalElementsFilesAdd twoDroppedFiles
                             exampleBrowser initialWorld))))
      = [timestamp; (timestamp + 1)%Z].
Proof.
  intros (timestamp & H).
  assert (E : map Character.id
                (additionalElements
                   (appState (snd (handleAdditionalElementsFilesAdd
                                     twoDroppedFiles exampleBrowser
                                     initialWorld))))
              = [1000; 1002]%Z) by reflexivity.
  rewrite E in H. injection H as H1 H2. lia.
Qed.

(** Nor are they distinct by construction: with a clock set back by one
    millisecond between two readings, two elements of one batch get the
    same identifier. *)
Lemma bulk_add_ids_collide_when_clock_steps_back :
  map Character.id
    (additionalElements
       (appState (snd (handleAdditionalElementsFilesAdd twoDroppedFiles
                         steppingBackBrowser initialWorld))))
  = [1001; 1001]%Z.
Proof. reflexivity. Qed.

(* ===================================================================== *)
(** ** Clearing the image of a list element                               *)
(* ===================================================================== *)

Lemma attachedFileName_cleared fileName : attachedFileName None fileName = None.
Proof. reflexivity. Qed.

Lemma truthy_nonempty s : s <> "" -> truthy s = true.
Proof. destruct s; [congruence | reflexivity]. Qed.

(** Names after a pass of the generate-tab upload handlers that clears
    the image: an element keeps its name unless it is the target and its
    name is empty. *)
Lemma cleared_names_kept noun prev id (l : list Character.t) :
  (forall c, In c l -> Character.id c = id -> Character.name c <> "") ->
  map Character.name
    (map (fun c =>
            if Z.eqb (Character.id c) id then
              Character.mk (Character.id c)
                (if truthy (Character.name c) then Character.name c
                 else positionalName noun prev id)
                None
            else c) l)
  = map Character.name l.
Proof.
  induction l as [|c l IH]; intros Hnamed; [reflexivity|].
  cbn [map]. rewrite IH by (intros x Hx; apply Hnamed; now right).
  f_equal. destruct (Z.eqb_spec (Character.id c) id) as [Hid|_];
    [|reflexivity].
  cbn [Character.name].
  now rewrite truthy_nonempty by (apply Hnamed; [now left | exact Hid]).
Qed.


(** The two lists of the edit tab: an upload that clears the image of an
    element gives it the positional placeholder for a name and leaves the
    other elements alone. *)
Lemma clearing_image_in_edit_lists_gives_placeholder st id fileName :
  editAddChars (handleEditCharImageUpload id None fileName st)
  = map (fun c =>
           if Z.eqb (Character.id c) id then
             Character.mk (Character.id c)
               (positionalName "Character" (editAddChars st) id) None
           else c)
        (editAddChars st)
  /\ editAddObjs (handleEditObjImageUpload id None fileName st)
     = map (fun c =>
              if Z.eqb (Character.id c) id then
                Character.mk (Character.id c)
                  (positionalName "Object" (editAddObjs st) id) None
              else c)
           (editAddObjs st).
Proof.
  unfold handleEditCharImageUpload, handleEditObjImageUpload.
  rewrite attachedFileName_cleared. destruct st. split; reflexivity.
Qed.



(** The generate tab has its own exception: an element whose name is
    empty, as after the upload of a file called .png, gets the positional
    placeholder when its image is removed. *)
Lemma clearing_image_names_an_unnamed_character :
  map Character.name
      (characters
         (handleCharacterImageUpload 1 None None
            (handleCharacterImageUpload 1
               (Some (mkImageFile (Some "AAAA") "image/png"))
               (Some ".png") initialApp)))
  = ["Character 1"]
  /\ map Character.name
         (characters
            (handleCharacterImageUpload 1
               (Some (mkImageFile (Some "AAAA") "image/png"))
               (Some ".png") initialApp))
     = [""].
Proof. split; reflexivity. Qed.

(* ===================================================================== *)
(** ** More on the image codec                                            *)
(* ===================================================================== *)

(** [s.split(sep)] cuts at every separator. *)
Lemma split_append sep a b :
  split sep (a ++ String sep b) = (split sep a ++ split sep b)%list.
Proof.
  induction a as [|c a IH]; simpl.
  - now rewrite Ascii.eqb_refl.
  - rewrite IH. destruct (Ascii.eqb c sep); [reflexivity|].
    pose proof (split_nonempty sep a) as Hne.
    destruct (split sep a); [congruence | reflexivity].
Qed.

(** [s.split(sep).join(sep)] is [s]. *)
Lemma join_split sep s : join (String sep EmptyString) (split sep s) = s.
Proof.
  unfold join. induction s as [|c s IH]; [reflexivity|].
  cbn [split]. pose proof (split_nonempty sep s) as Hne.
  destruct (Ascii.eqb_spec c sep) as [->|_];
    destruct (split sep s) as [|p ps]; try congruence.
  - change (String sep s) with (EmptyString ++ String sep EmptyString ++ s).
    rewrite <- IH. reflexivity.
  - destruct ps as [|q qs].
    + cbn [String.concat] in *. now rewrite IH.
    + change (String.concat (String sep EmptyString) (String c p :: q :: qs))
        with (String c (p ++ String sep EmptyString
                         ++ String.concat (String sep EmptyString) (q :: qs))).
      f_equal. exact IH.
Qed.

Lemma split_parts_lack_separator sep s :
  Forall (fun p => contains sep p = false) (split sep s).
Proof.
  induction s as [|c s IH]; simpl.
  - constructor; [reflexivity | constructor].
  - destruct (Ascii.eqb c sep) eqn:Hc.
    + constructor; [reflexivity | exact IH].
    + destruct (split sep s) as [|p ps].
      * constructor; [simpl; now rewrite Hc | constructor].
      * inversion IH as [|? ? Hp Hps]; subst.
        constructor; [simpl; now rewrite Hc, Hp | exact Hps].
Qed.

Lemma lazyUntilSemicolon_group s g :
  lazyUntilSemicolon s = Some g ->
  contains ";"%char g = false
  /\ existsChar isLineTerminator g = false
  /\ (forall c, contains c s = false -> contains c g = false).
Proof.
  revert g. induction s as [|x s IH]; simpl; intros g H; [discriminate|].
  destruct (Ascii.eqb x ";"%char) eqn:Hx.
  - injection H as <-. repeat split; reflexivity.
  - destruct (isLineTerminator x) eqn:Hl; [discriminate|].
    destruct (lazyUntilSemicolon s) as [g'|]; [|discriminate].
    injection H as <-. destruct (IH g' eq_refl) as (Hs & Hlt & Hc).
    repeat split; simpl.
    + now rewrite Hx, Hs.
    + now rewrite Hl, Hlt.
    + intros c Hcs. apply orb_false_iff in Hcs as [Hcx Hcs].
      now rewrite Hcx, (Hc c Hcs).
Qed.

Lemma matchMime_group s g :
  matchMime s = Some g ->
  contains ";"%char g = false
  /\ existsChar isLineTerminator g = false
  /\ (forall c, contains c s = false -> contains c g = false).
Proof.
  revert g. induction s as [|x s IH]; simpl; intros g H; [discriminate|].
  assert (Hrest : forall c, contains c (String x s) = false ->
                            contains c s = false).
  { intros c Hc. simpl in Hc. now apply orb_false_iff in Hc. }
  destruct (Ascii.eqb x ":"%char).
  - destruct (lazyUntilSemicolon s) as [g'|] eqn:Hlazy.
    + injection H as <-.
      destruct (lazyUntilSemicolon_group s g' Hlazy) as (Hs & Hl & Hc).
      repeat split; auto.
    + destruct (IH g H) as (Hs & Hl & Hc). repeat split; auto.
  - destruct (IH g H) as (Hs & Hl & Hc). repeat split; auto.
Qed.

Lemma matchMime_needs_colon s :
  contains ":"%char s = false -> matchMime s = None.
Proof.
  induction s as [|c s IH]; simpl; [reflexivity|].
  intros H. apply orb_false_iff in H as [Hc Hs]. now rewrite Hc, IH.
Qed.

(** What the record of a successful parse is made of. *)
Lemma parseDataUrl_record s r :
  parseDataUrl s = Ok r ->
  contains ";"%char (mimeType r) = false
  /\ contains ","%char (mimeType r) = false
  /\ existsChar isLineTerminator (mimeType r) = false
  /\ (forall payload, base64 r = Some payload ->
                      contains ","%char payload = false).
Proof.
  unfold parseDataUrl. intros H.
  pose proof (split_parts_lack_separator ","%char s) as Hparts.
  destruct (split ","%char s) as [|part0 rest]; [discriminate|].
  destruct (matchMime part0) as [mime|] eqn:Hm; [|discriminate].
  injection H as <-. cbn [mimeType base64].
  inversion Hparts as [|? ? H0 Hrest]; subst.
  destruct (matchMime_group part0 mime Hm) as (Hs & Hl & Hc).
  repeat split; auto.
  intros payload Hp. cbn [nth_error] in Hp.
  destruct rest as [|p1 rest']; [discriminate|]. injection Hp as <-.
  now inversion Hrest.
Qed.

(** The parse of colon, media type, semicolon, anything, comma,
    payload. *)
Lemma parseDataUrl_shape mediaType parameters payload :
  contains ","%char mediaType = false ->
  contains ";"%char mediaType = false ->
  existsChar isLineTerminator mediaType = false ->
  contains ","%char parameters = false ->
  contains ","%char payload = false ->
  parseDataUrl ("data:" ++ mediaType ++ String ";"%char parameters
                ++ String ","%char payload)
  = Ok {| base64 := Some payload; mimeType := mediaType |}.
Proof.
  intros Hc Hs Hl Hpar Hp. unfold parseDataUrl.
  replace ("data:" ++ mediaType ++ String ";"%char parameters
           ++ String ","%char payload)
    with (("data:" ++ mediaType ++ String ";"%char parameters)
          ++ String ","%char payload)
    by (simpl; rewrite append_assoc; reflexivity).
  rewrite split_at_first_separator
    by (simpl; rewrite contains_append, Hc; simpl; exact Hpar).
  rewrite (split_without_separator _ _ Hp). cbn [nth_error].
  change (matchMime ("data:" ++ mediaType ++ String ";"%char parameters))
    with (match lazyUntilSemicolon (mediaType ++ String ";"%char parameters)
          with
          | Some g => Some g
          | None => matchMime (mediaType ++ String ";"%char parameters)
          end).
  now rewrite (lazyUntilSemicolon_exact mediaType parameters Hs Hl).
Qed.

(** Decoding a data URL whose media type holds no comma, semicolon or
    line break yields that media type and that payload, and rendering
    the record gives the string back, character for character. *)
Theorem parse_then_render_is_identity mediaType payload :
  contains ","%char mediaType = false ->
  contains ";"%char mediaType = false ->
  existsChar isLineTerminator mediaType = false ->
  contains ","%char payload = false ->
  parseDataUrl (dataUrlOf mediaType payload)
  = Ok {| base64 := Some payload; mimeType := mediaType |}
  /\ imageSrc {| base64 := Some payload; mimeType := mediaType |}
     = dataUrlOf mediaType payload.
Proof.
  intros Hc Hs Hl Hp. split; [|reflexivity].
  exact (parseDataUrl_shape mediaType "base64" payload Hc Hs Hl eq_refl Hp).
Qed.

Lemma parse_then_render_is_identity_witness :
  parseDataUrl (dataUrlOf "image/jpeg" "/9j/4AAQSkZJRg==")
  = Ok {| base64 := Some "/9j/4AAQSkZJRg=="; mimeType := "image/jpeg" |}.
Proof.
  exact (proj1 (parse_then_render_is_identity "image/jpeg" "/9j/4AAQSkZJRg=="
                  eq_refl eq_refl eq_refl eq_refl)).
Defined.

(** The parser does not look at what stands between the first semicolon
    and the comma: parameters are dropped, a missing base64 marker goes
    unnoticed, and the record renders as base64 data all the same. *)
Theorem parse_ignores_what_follows_the_media_type
    mediaType parameters payload :
  contains ","%char mediaType = false ->
  contains ";"%char mediaType = false ->
  existsChar isLineTerminator mediaType = false ->
  contains ","%char parameters = false ->
  contains ","%char payload = false ->
  parseDataUrl ("data:" ++ mediaType ++ String ";"%char parameters
                ++ String ","%char payload)
  = parseDataUrl (dataUrlOf mediaType payload).
Proof.
  intros Hc Hs Hl Hpar Hp.
  rewrite (parseDataUrl_shape mediaType parameters payload Hc Hs Hl Hpar Hp).
  symmetry.
  exact (parseDataUrl_shape mediaType "base64" payload Hc Hs Hl eq_refl Hp).
Qed.

Lemma parse_ignores_what_follows_the_media_type_witness :
  parseDataUrl "data:text/plain;charset=utf-8,hello"
  = parseDataUrl "data:text/plain;base64,hello".
Proof.
  exact (parse_ignores_what_follows_the_media_type "text/plain"
           "charset=utf-8" "hello" eq_refl eq_refl eq_refl eq_refl eq_refl).
Defined.

(** Whatever string it came from, a parsed record holds a media type
    free of semicolons, commas and line breaks and, when the payload is
    there, a payload free of commas; so rendering it and parsing the
    rendering gives the same record again. *)
Theorem parsed_record_survives_rendering s r payload :
  parseDataUrl s = Ok r ->
  base64 r = Some payload ->
  contains ";"%char (mimeType r) = false
  /\ contains ","%char (mimeType r) = false
  /\ contains ","%char payload = false
  /\ parseDataUrl (imageSrc r) = Ok r.
Proof.
  intros Hparse Hpayload.
  destruct (parseDataUrl_record s r Hparse) as (Hs & Hc & Hl & Hp).
  specialize (Hp payload Hpayload). repeat split; auto.
  destruct r as [b m]. cbn [base64 mimeType] in *. subst b.
  exact (parseDataUrl_shape m "base64" payload Hc Hs Hl eq_refl Hp).
Qed.

Lemma parsed_record_survives_rendering_witness :
  parseDataUrl
    (imageSrc {| base64 := Some "AAAA"; mimeType := "image/svg+xml" |})
  = Ok {| base64 := Some "AAAA"; mimeType := "image/svg+xml" |}.
Proof.
  exact (proj2 (proj2 (proj2
    (parsed_record_survives_rendering
       "junk:image/svg+xml;charset=utf-8;base64,AAAA,trailing"
       {| base64 := Some "AAAA"; mimeType := "image/svg+xml" |} "AAAA"
       eq_refl eq_refl)))).
Defined.

(** Once a string holds a comma, nothing after the next comma is read:
    only the first two parts of the split are used. *)
Theorem parse_stops_at_second_comma s rest :
  contains ","%char s = true ->
  parseDataUrl (s ++ String ","%char rest) = parseDataUrl s.
Proof.
  intros Hcomma. unfold parseDataUrl. rewrite split_append.
  assert (Htwo : exists p0 p1 ps, split ","%char s = p0 :: p1 :: ps).
  { clear rest. induction s as [|c s IH]; simpl in *; [discriminate|].
    destruct (Ascii.eqb c ","%char) eqn:Hc.
    - pose proof (split_nonempty ","%char s).
      destruct (split ","%char s) as [|p ps]; [congruence|].
      now exists EmptyString, p, ps.
    - simpl in Hcomma. destruct (IH Hcomma) as (p0 & p1 & ps & ->).
      now exists (String c p0), p1, ps. }
  destruct Htwo as (p0 & p1 & ps & ->). reflexivity.
Qed.

Lemma parse_stops_at_second_comma_witness :
  parseDataUrl "data:image/png;base64,AAAA,BBBB"
  = parseDataUrl "data:image/png;base64,AAAA".
Proof.
  exact (parse_stops_at_second_comma "data:image/png;base64,AAAA" "BBBB"
           eq_refl).
Defined.

(** A string with no colon, or with no semicolon, is refused with the
    error Invalid data URL. *)
Theorem parse_refuses_missing_colon_or_semicolon s :
  contains ":"%char s = false \/ contains ";"%char s = false ->
  parseDataUrl s = Throw (ErrorObject "Invalid data URL").
Proof.
  intros H. unfold parseDataUrl.
  pose proof (split_nonempty ","%char s) as Hne.
  pose proof (fun c => split_parts_lack c ","%char s) as Hparts.
  destruct (split ","%char s) as [|part0 rest]; [congruence|].
  destruct H as [H|H]; specialize (Hparts _ H);
    inversion Hparts as [|? ? H0 _]; subst.
  - now rewrite (matchMime_needs_colon part0 H0).
  - now rewrite (matchMime_needs_semicolon part0 H0).
Qed.

Lemma parse_refuses_missing_colon_or_semicolon_witness :
  parseDataUrl "" = Throw (ErrorObject "Invalid data URL").
Proof.
  exact (parse_refuses_missing_colon_or_semicolon "" (or_introl eq_refl)).
Defined.

(* ===================================================================== *)
(** ** Names from file names                                              *)
(* ===================================================================== *)

Lemma truthy_append_separator a c b : truthy (a ++ String c b) = true.
Proof. now destruct a. Qed.

Lemma contains_replaceAll_target c d s :
  Ascii.eqb d c = false -> contains c (replaceAll c d s) = false.
Proof.
  intros Hd. induction s as [|x s IH]; simpl; [reflexivity|].
  rewrite IH, orb_false_r.
  destruct (Ascii.eqb x c) eqn:Hx; [exact Hd | exact Hx].
Qed.

Lemma contains_replaceAll_other c a d s :
  Ascii.eqb d c = false -> contains c s = false ->
  contains c (replaceAll a d s) = false.
Proof.
  intros Hd. induction s as [|x s IH]; simpl; [reflexivity|].
  intros H. apply orb_false_iff in H as [Hx Hs]. rewrite (IH Hs), orb_false_r.
  destruct (Ascii.eqb x a); [exact Hd | exact Hx].
Qed.

(** The name taken from a file name is the file name without its last
    extension, underscores and hyphens turned into spaces; dots before
    the last one stay, and a file name that is only an extension gives
    the empty name. *)
Theorem name_is_file_name_without_last_extension base extension :
  contains "."%char extension = false ->
  getNameFromFilename (base ++ String "."%char extension)
  = replaceAll "-"%char " "%char (replaceAll "_"%char " "%char base).
Proof.
  intros Hext. unfold getNameFromFilename.
  rewrite truthy_append_separator. cbn [negb].
  rewrite split_append, (split_without_separator _ _ Hext).
  rewrite length_app, Nat.add_comm. cbn [List.length Nat.add].
  pose proof (split_nonempty "."%char base) as Hne.
  destruct (split "."%char base) as [|p ps] eqn:Hsplit; [congruence|].
  cbn [List.length Nat.ltb Nat.leb]. rewrite removelast_last.
  now rewrite <- Hsplit, join_split.
Qed.

Lemma name_is_file_name_without_last_extension_witness :
  getNameFromFilename "old_town-v1.2.final.png" = "old town v1.2.final".
Proof.
  exact (name_is_file_name_without_last_extension "old_town-v1.2.final" "png"
           eq_refl).
Defined.

(** A file name without a dot is taken whole, and no name taken from a
    file name holds an underscore or a hyphen. *)
Theorem name_has_no_underscore_or_hyphen fileName :
  contains "_"%char (getNameFromFilename fileName) = false
  /\ contains "-"%char (getNameFromFilename fileName) = false
  /\ (contains "."%char fileName = false ->
      getNameFromFilename fileName
      = replaceAll "-"%char " "%char (replaceAll "_"%char " "%char fileName)).
Proof.
  unfold getNameFromFilename.
  destruct (truthy fileName) eqn:Ht; cbn [negb].
  - split; [|split].
    + apply contains_replaceAll_other; [reflexivity|].
      now apply contains_replaceAll_target.
    + now apply contains_replaceAll_target.
    + intros Hdot. rewrite (split_without_separator _ _ Hdot).
      cbn [List.length Nat.ltb Nat.leb]. unfold join. reflexivity.
  - destruct fileName; [|discriminate]. repeat split; reflexivity.
Qed.

(* ===================================================================== *)
(** ** Reordering a list                                                  *)
(* ===================================================================== *)

Lemma skipn_at {T : Type} (l : list T) : forall i x,
  nth_error l i = Some x -> skipn i l = x :: skipn (S i) l.
Proof.
  induction l as [|y l IH]; intros [|i] x H; try discriminate.
  - now injection H as ->.
  - cbn [nth_error] in H. exact (IH i x H).
Qed.

Lemma split_at {T : Type} (l : list T) i x :
  nth_error l i = Some x -> l = (firstn i l ++ x :: skipn (S i) l)%list.
Proof.
  intros H. rewrite <- (skipn_at l i x H). symmetry. apply firstn_skipn.
Qed.

Lemma map_Some_injective {T : Type} (a b : list T) :
  map Some a = map Some b -> a = b.
Proof.
  revert b. induction a as [|x a IH]; intros [|y b] H; try discriminate;
    [reflexivity|].
  cbn [map] in H. injection H as -> H. now rewrite (IH b H).
Qed.

Lemma without_length {T : Type} (l : list T) i x :
  nth_error l i = Some x -> S (List.length (without i l)) = List.length l.
Proof.
  intros H. pose proof (f_equal (@List.length T) (split_at l i x H)) as E.
  rewrite length_app in E. cbn [List.length] in E.
  unfold without. rewrite length_app. lia.
Qed.

(** With both indices natural numbers and the first one in range, the
    element at [i] is taken out and put back at [j], or at the end when
    [j] is beyond it. *)
Lemma handleReorder_in_range {T : Type} (l : list T) i j x :
  nth_error l i = Some x ->
  handleReorder l (Z.of_nat i) (Z.of_nat j)
  = map Some (firstn (Nat.min j (List.length (without i l))) (without i l)
              ++ x :: skipn (Nat.min j (List.length (without i l)))
                            (without i l))%list.
Proof.
  intros H.
  assert (Hi : (i < List.length l)%nat)
    by (apply nth_error_Some; congruence).
  unfold handleReorder, splice. rewrite length_map.
  assert (Hstart : spliceStart (List.length l) (Z.of_nat i) = i).
  { unfold spliceStart. destruct (Z.ltb_spec (Z.of_nat i) 0); [lia|].
    rewrite Nat2Z.id. lia. }
  rewrite Hstart.
  replace (Nat.min (Z.to_nat (Z.max 1 0)) (List.length l - i)) with 1%nat
    by lia.
  rewrite (skipn_at (map Some l) i (Some x))
    by (rewrite nth_error_map, H; reflexivity).
  cbn [firstn fst snd List.app].
  replace (i + 1)%nat with (S i) by lia.
  rewrite firstn_map, skipn_map, <- map_app. fold (without i l).
  rewrite length_map.
  assert (Hend : spliceStart (List.length (without i l)) (Z.of_nat j)
                 = Nat.min j (List.length (without i l))).
  { unfold spliceStart. destruct (Z.ltb_spec (Z.of_nat j) 0); [lia|].
    now rewrite Nat2Z.id. }
  rewrite Hend.
  replace (Nat.min (Z.to_nat (Z.max 0 0)) _) with 0%nat by lia.
  rewrite Nat.add_0_r, firstn_map, skipn_map.
  change (Some x :: map Some ?t) with (map Some (x :: t)).
  cbn [List.app]. change (Some x :: map Some ?t) with (map Some (x :: t)).
  now rewrite <- map_app.
Qed.

Lemma reinsert_at {T : Type} (l : list T) i x :
  nth_error l i = Some x ->
  (firstn i (without i l) ++ x :: skipn i (without i l))%list = l.
Proof.
  intros H.
  assert (Hi : (i < List.length l)%nat)
    by (apply nth_error_Some; congruence).
  assert (Hf : List.length (firstn i l) = i)
    by (apply firstn_length_le; lia).
  unfold without.
  rewrite firstn_app, skipn_app, firstn_firstn, Nat.min_id.
  rewrite Hf, Nat.sub_diag.
  rewrite (@skipn_all2 _ i (firstn i l)) by lia.
  cbn [firstn skipn List.app]. rewrite app_nil_r.
  symmetry. exact (split_at l i x H).
Qed.

Lemma without_inserted {T : Type} (r : list T) j x :
  (j <= List.length r)%nat ->
  nth_error (firstn j r ++ x :: skipn j r)%list j = Some x
  /\ without j (firstn j r ++ x :: skipn j r)%list = r.
Proof.
  intros Hj.
  assert (Hlen : List.length (firstn j r) = j) by (apply firstn_length_le; lia).
  split.
  - rewrite nth_error_app2 by lia. now rewrite Hlen, Nat.sub_diag.
  - unfold without.
    rewrite firstn_app, skipn_app, Hlen, Nat.sub_diag.
    rewrite (@firstn_all2 _ j (firstn j r)) by lia.
    rewrite (@skipn_all2 _ (S j) (firstn j r)) by lia.
    replace (S j - j)%nat with 1%nat by lia.
    cbn [firstn skipn List.app]. rewrite app_nil_r. apply firstn_skipn.
Qed.

(** Reordering within range loses nothing and invents nothing: the
    array handed over holds no undefined entry, it is a rearrangement of
    the list, and the element that was at the start index is at the end
    index. *)
Theorem reorder_in_range_is_a_rearrangement {T : Type} (l : list T) i j :
  (i < List.length l)%nat ->
  (j < List.length l)%nat ->
  exists l',
    handleReorder l (Z.of_nat i) (Z.of_nat j) = map Some l'
    /\ Permutation l l'
    /\ nth_error l' j = nth_error l i.
Proof.
  intros Hi Hj.
  destruct (nth_error l i) as [x|] eqn:Hx;
    [|apply nth_error_None in Hx; lia].
  pose proof (without_length l i x Hx) as Hlen.
  eexists. split; [exact (handleReorder_in_range l i j x Hx)|].
  replace (Nat.min j (List.length (without i l))) with j by lia.
  split.
  - rewrite (split_at l i x Hx) at 1. fold (without i l).
    etransitivity; [symmetry; apply Permutation_middle|].
    etransitivity; [|apply Permutation_middle].
    now rewrite (firstn_skipn j (without i l)).
  - exact (proj1 (without_inserted (without i l) j x ltac:(lia))).
Qed.

Lemma reorder_in_range_is_a_rearrangement_witness :
  exists l',
    handleReorder ["A"; "B"; "C"] 0 2 = map Some l'
    /\ Permutation ["A"; "B"; "C"] l'
    /\ nth_error l' 2 = Some "A".
Proof.
  exact (reorder_in_range_is_a_rearrangement ["A"; "B"; "C"] 0 2
           ltac:(cbn; lia) ltac:(cbn; lia)).
Defined.

(** Moving an element from one place to another and then back restores
    the list. *)
Theorem reorder_there_and_back {T : Type} (l l' : list T) i j :
  (i < List.length l)%nat ->
  (j < List.length l)%nat ->
  handleReorder l (Z.of_nat i) (Z.of_nat j) = map Some l' ->
  handleReorder l' (Z.of_nat j) (Z.of_nat i) = map Some l.
Proof.
  intros Hi Hj Hmove.
  destruct (nth_error l i) as [x|] eqn:Hx;
    [|apply nth_error_None in Hx; lia].
  pose proof (without_length l i x Hx) as Hlen.
  rewrite (handleReorder_in_range l i j x Hx) in Hmove.
  apply map_Some_injective in Hmove.
  replace (Nat.min j (List.length (without i l))) with j in Hmove by lia.
  destruct (without_inserted (without i l) j x ltac:(lia)) as (Hat & Hout).
  rewrite Hmove in Hat, Hout.
  rewrite (handleReorder_in_range l' j i x Hat), Hout.
  replace (Nat.min i (List.length (without i l))) with i by lia.
  now rewrite (reinsert_at l i x Hx).
Qed.

Lemma reorder_there_and_back_witness :
  handleReorder ["B"; "C"; "A"] 2 0 = map Some ["A"; "B"; "C"].
Proof.
  exact (reorder_there_and_back ["A"; "B"; "C"] ["B"; "C"; "A"] 0 2
           ltac:(cbn; lia) ltac:(cbn; lia) eq_refl).
Defined.

(** Dropping an element on its own place would change nothing, which is
    why the drop handler does not call the reorder then. *)
Theorem reorder_onto_itself_changes_nothing {T : Type} (l : list T) i :
  (i < List.length l)%nat ->
  handleReorder l (Z.of_nat i) (Z.of_nat i) = map Some l.
Proof.
  intros Hi.
  destruct (nth_error l i) as [x|] eqn:Hx;
    [|apply nth_error_None in Hx; lia].
  pose proof (without_length l i x Hx) as Hlen.
  rewrite (handleReorder_in_range l i i x Hx).
  replace (Nat.min i (List.length (without i l))) with i by lia.
  now rewrite (reinsert_at l i x Hx).
Qed.

Lemma reorder_onto_itself_changes_nothing_witness :
  handleReorder ["A"; "B"; "C"] 1 1 = [Some "A"; Some "B"; Some "C"].
Proof.
  exact (reorder_onto_itself_changes_nothing ["A"; "B"; "C"] 1
           ltac:(cbn; lia)).
Defined.

(** A start index at or beyond the end of the list removes nothing, and
    the reorder then inserts an undefined entry: the array handed over
    is one longer than the list, with that entry at the clamped end
    index and the elements of the list around it in their order. *)
Theorem reorder_from_beyond_the_end_inserts_undefined {T : Type}
    (l : list T) startIndex endIndex :
  (Z.of_nat (List.length l) <= startIndex)%Z ->
  handleReorder l startIndex endIndex
  = (firstn (spliceStart (List.length l) endIndex) (map Some l)
     ++ None :: skipn (spliceStart (List.length l) endIndex) (map Some l))%list
  /\ List.length (handleReorder l startIndex endIndex) = S (List.length l).
Proof.
  intros Hstart.
  assert (E : handleReorder l startIndex endIndex
              = (firstn (spliceStart (List.length l) endIndex) (map Some l)
                 ++ None :: skipn (spliceStart (List.length l) endIndex)
                                  (map Some l))%list).
  { unfold handleReorder, splice. rewrite length_map.
    assert (Hs : spliceStart (List.length l) startIndex = List.length l).
    { unfold spliceStart. destruct (Z.ltb_spec startIndex 0); lia. }
    rewrite Hs, Nat.sub_diag, Nat.min_0_r, Nat.add_0_r.
    cbn [firstn fst snd List.app].
    rewrite !(firstn_skipn (List.length l) (map Some l)), length_map.
    replace (Nat.min (Z.to_nat (Z.max 0 0)) _) with 0%nat by lia.
    now rewrite Nat.add_0_r. }
  split; [exact E|].
  rewrite E, length_app. cbn [List.length].
  pose proof (f_equal (@List.length (option T))
                (firstn_skipn (spliceStart (List.length l) endIndex)
                              (map Some l))) as Hsum.
  rewrite length_app, length_map in Hsum. lia.
Qed.

Lemma reorder_from_beyond_the_end_inserts_undefined_witness :
  handleReorder ["A"; "B"; "C"] 5 1 = [Some "A"; None; Some "B"; Some "C"].
Proof.
  exact (proj1 (reorder_from_beyond_the_end_inserts_undefined
                  ["A"; "B"; "C"] 5 1 ltac:(cbn; lia))).
Defined.

(* ===================================================================== *)
(** ** More on the history store                                          *)
(* ===================================================================== *)

Lemma filter_keeps_all {A : Type} (f : A -> bool) (l : list A) :
  (forall x, In x l -> f x = true) -> filter f l = l.
Proof.
  induction l as [|x l IH]; intros H; [reflexivity|].
  cbn [filter]. rewrite (H x (or_introl eq_refl)).
  now rewrite IH by (intros y Hy; apply H; now right).
Qed.


Lemma setCharacters_same st : setCharacters (characters st) st = st.
Proof. now destruct st. Qed.

Lemma world_same w :
  mkWorld (appState w) (ticks w) (requests w) (console w) = w.
Proof. now destruct w. Qed.



Lemma pushHistory_capped item h :
  (List.length (pushHistory item h) <= MAX_HISTORY_ITEMS)%nat.
Proof. apply firstn_le_length. Qed.

Lemma historyEvent_keeps_cap ev br w :
  (List.length (history (appState w)) <= MAX_HISTORY_ITEMS)%nat ->
  exists w',
    historyEvent ev br w = (Ok tt, w')
    /\ (List.length (history (appState w')) <= MAX_HISTORY_ITEMS)%nat.
Proof.
  intros Hcap. destruct ev as [image prompt type|id|confirmed];
    cbn [historyEvent].
  - destruct (parseDataUrl image) as [parsed|e] eqn:Hparse.
    + rewrite (handleAddToHistory_parsed _ _ _ _ _ _ Hparse).
      eexists. split; [reflexivity|]. cbn [appState].
      destruct (appState w). cbn [history setHistory].
      apply pushHistory_capped.
    + rewrite (handleAddToHistory_unparsed _ _ _ _ _ _ Hparse).
      eexists. split; [reflexivity | exact Hcap].
  - unfold handleDeleteFromHistory, update.
    eexists. split; [reflexivity|]. cbn [appState].
    destruct (appState w). cbn [history setHistory] in *.
    etransitivity; [apply filter_length_le | exact Hcap].
  - destruct confirmed; cbn [handleClearHistory].
    + unfold update. eexists. split; [reflexivity|]. cbn [appState].
      destruct (appState w). cbn [history setHistory List.length]. lia.
    + unfold ret. eexists. split; [reflexivity | exact Hcap].
Qed.

(** Whatever is added, deleted or cleared, in whatever order, the
    history handlers never throw and never leave more than 20 entries
    in a history that had at most 20. *)
Theorem history_events_never_throw_and_keep_the_cap evs br w :
  (List.length (history (appState w)) <= MAX_HISTORY_ITEMS)%nat ->
  fst (historyEvents evs br w) = Ok tt
  /\ (List.length (history (appState (snd (historyEvents evs br w))))
      <= MAX_HISTORY_ITEMS)%nat.
Proof.
  revert w. induction evs as [|ev evs IH]; intros w Hcap.
  - split; [reflexivity | exact Hcap].
  - cbn [historyEvents]. unfold bind.
    destruct (historyEvent_keeps_cap ev br w Hcap) as (w' & -> & Hcap').
    exact (IH w' Hcap').
Qed.

Lemma history_events_never_throw_and_keep_the_cap_witness :
  (List.length
     (history
        (appState
           (snd (historyEvents
                   (repeat (AddToHistory "data:image/png;base64,AAAA"
                                         "a prompt" Edit) 25
                    ++ [DeleteFromHistory "edit-1002"; ClearHistory false])
                   exampleBrowser initialWorld))))
   <= 20)%nat.
Proof.
  refine (proj2 (history_events_never_throw_and_keep_the_cap _
                   exampleBrowser initialWorld _)).
  cbn. lia.
Defined.










(* ===================================================================== *)
(** ** More on the generation orchestrator                                *)
(* ===================================================================== *)

Lemma deliveredImages_bounded br request remaining : forall call,
  (List.length (deliveredImages br request call remaining) <= remaining)%nat.
Proof.
  induction remaining as [|k IH]; intros call; cbn [deliveredImages];
    [cbn; lia|].
  destruct (generateStoryImage br call request); cbn [List.length];
    [specialize (IH (S call))|]; lia.
Qed.

Lemma delivered_and_failure br request remaining : forall call,
  match firstFailure br request call remaining with
  | None => List.length (deliveredImages br request call remaining)
            = remaining
  | Some _ => (List.length (deliveredImages br request call remaining)
               < remaining)%nat
  end.
Proof.
  induction remaining as [|k IH]; intros call;
    cbn [deliveredImages firstFailure]; [reflexivity|].
  destruct (generateStoryImage br call request); cbn [List.length];
    [|lia].
  specialize (IH (S call)).
  destruct (firstFailure br request (S call) k); lia.
Qed.

Lemma pushAll_capped items : forall h,
  (List.length h <= MAX_HISTORY_ITEMS)%nat ->
  (List.length (pushAll items h) <= MAX_HISTORY_ITEMS)%nat.
Proof.
  unfold pushAll. induction items as [|x items IH]; intros h Hcap;
    cbn [fold_left]; [exact Hcap|].
  apply IH, pushHistory_capped.
Qed.

(** What a run of the loop leaves behind, whatever the service does. *)
Lemma generateLoop_outcome br request remaining : forall all w,
  exists w',
    generateLoop remaining request all br w
    = (match firstFailure br request (List.length (requests w)) remaining with
       | None => Ok tt
       | Some e => Throw e
       end, w')
    /\ generatedImages (appState w')
       = match deliveredImages br request (List.length (requests w))
                               remaining with
         | [] => generatedImages (appState w)
         | delivered => (all ++ delivered)%list
         end
    /\ history (appState w')
       = pushAll (createdItems br (ticks w)
                    (generationAdds request
                       (deliveredImages br request
                          (List.length (requests w)) remaining)))
                 (history (appState w))
    /\ requests w'
       = (requests w
          ++ repeat request
               (List.length (deliveredImages br request
                               (List.length (requests w)) remaining)
                + match firstFailure br request (List.length (requests w))
                                     remaining with
                  | None => 0
                  | Some _ => 1
                  end))%list
    /\ genError (appState w') = genError (appState w)
    /\ genLoading (appState w') = genLoading (appState w).
Proof.
  induction remaining as [|k IH]; intros all w.
  - exists w. cbn. rewrite app_nil_r. repeat split; reflexivity.
  - cbn [deliveredImages firstFailure].
    destruct (generateStoryImage br (List.length (requests w)) request)
      as [image|e] eqn:Hcall.
    + rewrite (generateLoop_delivered _ _ _ _ _ _ Hcall). unfold bind at 1.
      assert (Hadd : exists w2,
        handleAddToHistory image (Request.prompt request) Gen br
          (mkWorld (setGeneratedImages (all ++ [image])%list (appState w))
                   (ticks w) (requests w ++ [request])%list (console w))
        = (Ok tt, w2)
        /\ generatedImages (appState w2) = (all ++ [image])%list
        /\ history (appState w2)
           = pushAll (createdItems br (ticks w)
                        (generationAdds request [image]))
                     (history (appState w))
        /\ (createdItems br (ticks w) (generationAdds request [image])
            ++ createdItems br (ticks w2) (generationAdds request
                 (deliveredImages br request (S (List.length (requests w))) k)))%list
           = createdItems br (ticks w)
               (generationAdds request
                  (image :: deliveredImages br request
                              (S (List.length (requests w))) k))
        /\ requests w2 = (requests w ++ [request])%list
        /\ genError (appState w2) = genError (appState w)
        /\ genLoading (appState w2) = genLoading (appState w)).
      { cbn [generationAdds map createdItems].
        destruct (parseDataUrl image) as [parsed|e] eqn:Hparse.
        - rewrite (handleAddToHistory_parsed _ _ _ _ _ _ Hparse).
          eexists. split; [reflexivity|].
          cbn [appState ticks requests]. destruct (appState w).
          repeat split; reflexivity.
        - rewrite (handleAddToHistory_unparsed _ _ _ _ _ _ Hparse).
          eexists. split; [reflexivity|].
          cbn [appState ticks requests]. destruct (appState w).
          repeat split; reflexivity. }
      destruct Hadd as (w2 & -> & Himg & Hhist & Hcreated & Hreq & Herr & Hload).
      destruct (IH (all ++ [image])%list w2)
        as (w' & Hrun & Himg' & Hhist' & Hreq' & Herr' & Hload').
      assert (Hlen : List.length (requests w2) = S (List.length (requests w)))
        by (rewrite Hreq, length_app; cbn; lia).
      rewrite Hlen in *.
      exists w'. split; [exact Hrun|]. repeat split.
      * rewrite Himg'.
        destruct (deliveredImages br request (S (List.length (requests w))) k).
        -- exact Himg.
        -- now rewrite <- app_assoc.
      * rewrite Hhist', Hhist, <- Hcreated.
        unfold pushAll. now rewrite fold_left_app.
      * rewrite Hreq', Hreq, <- app_assoc. reflexivity.
      * now rewrite Herr'.
      * now rewrite Hload'.
    + rewrite (generateLoop_failed _ _ _ _ _ _ Hcall).
      eexists. split; [reflexivity|].
      cbn [appState requests ticks]. repeat split; reflexivity.
Qed.

(** What a click on Generate leaves behind when the button is enabled. *)
Lemma handleGenerateClick_outcome br w :
  isGenerationDisabled (appState w) = false ->
  exists w',
    handleGenerateClick br w = (Ok tt, w')
    /\ generatedImages (appState w')
       = deliveredImages br (generationRequest (appState w))
           (List.length (requests w))
           (Z.to_nat (numberOfImages (appState w)))
    /\ genError (appState w')
       = option_map errorText
           (firstFailure br (generationRequest (appState w))
              (List.length (requests w))
              (Z.to_nat (numberOfImages (appState w))))
    /\ genLoading (appState w') = false
    /\ history (appState w')
       = pushAll (createdItems br (ticks w)
                    (generationAdds (generationRequest (appState w))
                       (deliveredImages br (generationRequest (appState w))
                          (List.length (requests w))
                          (Z.to_nat (numberOfImages (appState w))))))
                 (history (appState w))
    /\ requests w'
       = (requests w
          ++ repeat (generationRequest (appState w))
               (List.length
                  (deliveredImages br (generationRequest (appState w))
                     (List.length (requests w))
                     (Z.to_nat (numberOfImages (appState w))))
                + match firstFailure br (generationRequest (appState w))
                          (List.length (requests w))
                          (Z.to_nat (numberOfImages (appState w))) with
                  | None => 0
                  | Some _ => 1
                  end))%list.
Proof.
  intros Henabled. rewrite (handleGenerateClick_enabled br w Henabled).
  unfold tryFinally, tryCatch.
  destruct (generateLoop_outcome br (generationRequest (appState w))
              (Z.to_nat (numberOfImages (appState w))) []
              (mkWorld (setGeneratedImages []
                          (setGenError None (setGenLoading true (appState w))))
                       (ticks w) (requests w) (console w)))
    as (w1 & Hrun & Himg & Hhist & Hreq & Herr & Hload).
  cbn [appState ticks requests] in *. rewrite Hrun.
  assert (Himg1 : generatedImages (appState w1)
                  = deliveredImages br (generationRequest (appState w))
                      (List.length (requests w))
                      (Z.to_nat (numberOfImages (appState w)))).
  { rewrite Himg.
    destruct (deliveredImages br (generationRequest (appState w))
                (List.length (requests w))
                (Z.to_nat (numberOfImages (appState w))));
      [now destruct (appState w) | reflexivity]. }
  assert (Hhist1 : history (setGeneratedImages []
                     (setGenError None (setGenLoading true (appState w))))
                   = history (appState w)) by now destruct (appState w).
  assert (Herr1 : genError (appState w1) = None)
    by (rewrite Herr; now destruct (appState w)).
  rewrite Hhist1 in Hhist. clear Himg Herr Hload Hhist1 Hrun.
  destruct (firstFailure br (generationRequest (appState w))
              (List.length (requests w))
              (Z.to_nat (numberOfImages (appState w)))) as [e|];
    unfold update; cbn [option_map]; eexists; (split; [reflexivity|]);
    cbn [appState requests]; destruct (appState w1);
    cbn [generatedImages genError genLoading history setGenError
         setGenLoading] in *;
    repeat split; assumption || reflexivity.
Qed.

(** A click on Generate, when the button is enabled, ends with exactly
    this: the result list holds the images delivered before the first
    failing call, in the order of the calls; the error cell holds the
    text of that failure, if there was one; the loading flag is down; the
    history has been pushed the entries of the delivered images that
    parse, oldest first; and one request was sent per delivered image,
    plus one for the failing call. *)
Theorem generation_ends_with_the_images_before_the_first_failure br w :
  isGenerationDisabled (appState w) = false ->
  fst (handleGenerateClick br w) = Ok tt
  /\ generatedImages (appState (snd (handleGenerateClick br w)))
     = deliveredImages br (generationRequest (appState w))
         (List.length (requests w)) (Z.to_nat (numberOfImages (appState w)))
  /\ genError (appState (snd (handleGenerateClick br w)))
     = option_map errorText
         (firstFailure br (generationRequest (appState w))
            (List.length (requests w))
            (Z.to_nat (numberOfImages (appState w))))
  /\ genLoading (appState (snd (handleGenerateClick br w))) = false
  /\ history (appState (snd (handleGenerateClick br w)))
     = pushAll (createdItems br (ticks w)
                  (generationAdds (generationRequest (appState w))
                     (deliveredImages br (generationRequest (appState w))
                        (List.length (requests w))
                        (Z.to_nat (numberOfImages (appState w))))))
               (history (appState w)).
Proof.
  intros Henabled.
  destruct (handleGenerateClick_outcome br w Henabled)
    as (w' & -> & Himg & Herr & Hload & Hhist & _).
  cbn [fst snd]. repeat split; assumption.
Qed.

Lemma generation_ends_with_the_images_before_the_first_failure_witness :
  generatedImages
    (appState (snd (handleGenerateClick exampleBrowser threeImagesWorld)))
  = ["data:image/png;base64,AAAA"].
Proof.
  exact (proj1 (proj2
    (generation_ends_with_the_images_before_the_first_failure
       exampleBrowser threeImagesWorld eq_refl))).
Defined.

(** Whatever the state and whatever the service does, a click on
    Generate never throws, never sends more requests than the number of
    images asked for, keeps a history of at most 20 entries within 20,
    and does nothing at all when the button is disabled. *)
Theorem generation_never_throws_and_is_bounded br w :
  fst (handleGenerateClick br w) = Ok tt
  /\ (List.length (requests (snd (handleGenerateClick br w)))
      <= List.length (requests w) + Z.to_nat (numberOfImages (appState w)))%nat
  /\ ((List.length (history (appState w)) <= MAX_HISTORY_ITEMS)%nat ->
      (List.length (history (appState (snd (handleGenerateClick br w))))
       <= MAX_HISTORY_ITEMS)%nat)
  /\ (isGenerationDisabled (appState w) = true ->
      snd (handleGenerateClick br w) = w).
Proof.
  destruct (isGenerationDisabled (appState w)) eqn:Hdisabled.
  - unfold handleGenerateClick. rewrite Hdisabled. cbn [fst snd].
    repeat split; auto; lia.
  - destruct (handleGenerateClick_outcome br w Hdisabled)
      as (w' & -> & _ & _ & _ & Hhist & Hreq).
    cbn [fst snd]. split; [reflexivity|]. split; [|split].
    + rewrite Hreq, length_app, repeat_length.
      pose proof (delivered_and_failure br (generationRequest (appState w))
                    (Z.to_nat (numberOfImages (appState w)))
                    (List.length (requests w))) as Hcount.
      destruct (firstFailure br (generationRequest (appState w))
                  (List.length (requests w))
                  (Z.to_nat (numberOfImages (appState w)))); lia.
    + intros Hcap. rewrite Hhist. now apply pushAll_capped.
    + discriminate.
Qed.

Lemma generation_never_throws_and_is_bounded_witness :
  snd (handleGenerateClick exampleBrowser initialWorld) = initialWorld.
Proof.
  exact (proj2 (proj2 (proj2
    (generation_never_throws_and_is_bounded exampleBrowser initialWorld)))
    eq_refl).
Defined.

(* ===================================================================== *)
(** ** What the result panel shows                                        *)
(* ===================================================================== *)

(** The result panel always mounts exactly one of its four children. *)
Theorem display_shows_exactly_one_panel images isLoading error :
  List.length (generatedImageDisplay images isLoading error) = 1%nat.
Proof.
  unfold generatedImageDisplay.
  destruct isLoading, (someTruthy error), images as [|x [|y rest]];
    reflexivity.
Qed.

(** After a generation that failed with a message that is not empty, the
    panel mounts the error alone: the images delivered before the
    failure are in the result list but are not shown. *)
Theorem failed_generation_shows_only_the_error br w e :
  isGenerationDisabled (appState w) = false ->
  firstFailure br (generationRequest (appState w))
    (List.length (requests w)) (Z.to_nat (numberOfImages (appState w)))
  = Some e ->
  errorText e <> "" ->
  generateTabDisplay (appState (snd (handleGenerateClick br w)))
  = [ErrorPanel (errorText e)].
Proof.
  intros Henabled Hfail Htext.
  destruct (handleGenerateClick_outcome br w Henabled)
    as (w' & -> & _ & Herr & Hload & _).
  cbn [snd]. unfold generateTabDisplay, generatedImageDisplay.
  rewrite Herr, Hload, Hfail. cbn [option_map someTruthy negb andb].
  rewrite (truthy_nonempty _ Htext). cbn [negb andb List.app].
  reflexivity.
Qed.

Lemma failed_generation_shows_only_the_error_witness :
  generateTabDisplay
    (appState (snd (handleGenerateClick exampleBrowser threeImagesWorld)))
  = [ErrorPanel "quota exceeded"].
Proof.
  apply (failed_generation_shows_only_the_error exampleBrowser
           threeImagesWorld (ErrorObject "quota exceeded"));
    [reflexivity | reflexivity | discriminate].
Defined.

(** A failure whose message is the empty string is not shown at all:
    the panel mounts the delivered images, or the placeholder when there
    is none, as after a success. *)
Theorem failure_with_empty_message_is_not_shown br w e :
  isGenerationDisabled (appState w) = false ->
  firstFailure br (generationRequest (appState w))
    (List.length (requests w)) (Z.to_nat (numberOfImages (appState w)))
  = Some e ->
  errorText e = "" ->
  generateTabDisplay (appState (snd (handleGenerateClick br w)))
  = generatedImageDisplay
      (deliveredImages br (generationRequest (appState w))
         (List.length (requests w)) (Z.to_nat (numberOfImages (appState w))))
      false None.
Proof.
  intros Henabled Hfail Htext.
  destruct (handleGenerateClick_outcome br w Henabled)
    as (w' & -> & Himg & Herr & Hload & _).
  cbn [snd]. unfold generateTabDisplay, generatedImageDisplay.
  rewrite Himg, Herr, Hload, Hfail. cbn [option_map someTruthy].
  rewrite Htext. reflexivity.
Qed.

(* ===================================================================== *)
(** ** The edit tab                                                       *)
(* ===================================================================== *)

(** When the edit call fails, the handler returns with the text of the
    failure in the error cell, the result slot empty, whatever it held
    before, the loading flag down, and the history untouched; one
    request was sent, carrying the base image. *)
Theorem failed_edit_clears_the_result_and_keeps_the_history ed br w e :
  isEditDisabled ed = false ->
  generateStoryImage br (List.length (requests w)) (editRequest (appState w) ed)
  = Throw e ->
  handleApplyStandaloneEdit ed br w
  = (Ok (mkEditCells (editBaseImage ed) (editBaseImageName ed)
           (standaloneEditPrompt ed) None false (Some (errorText e))),
     mkWorld (appState w) (ticks w)
             (requests w ++ [editRequest (appState w) ed])%list (console w))
  /\ Request.baseImage (editRequest (appState w) ed) = editBaseImage ed.
Proof.
  intros Henabled Hcall. split; [|reflexivity].
  unfold handleApplyStandaloneEdit. rewrite Henabled.
  unfold awaitGenerateStoryImage. now rewrite Hcall.
Qed.

Lemma failed_edit_clears_the_result_and_keeps_the_history_witness :
  fst (handleApplyStandaloneEdit
         (mkEditCells (Some (mkImageFile (Some "AAAA") "image/png"))
                      (Some "shot.png") "make it night"
                      (Some "data:image/png;base64,OLD") false None)
         exampleBrowser
         (mkWorld initialApp 0 [generationRequest initialApp] []))
  = Ok (mkEditCells (Some (mkImageFile (Some "AAAA") "image/png"))
                    (Some "shot.png") "make it night" None false
                    (Some "quota exceeded")).
Proof.
  exact (f_equal fst (proj1
    (failed_edit_clears_the_result_and_keeps_the_history
       (mkEditCells (Some (mkImageFile (Some "AAAA") "image/png"))
                    (Some "shot.png") "make it night"
                    (Some "data:image/png;base64,OLD") false None)
       exampleBrowser
       (mkWorld initialApp 0 [generationRequest initialApp] [])
       (ErrorObject "quota exceeded") eq_refl eq_refl))).
Defined.

(** When the edit call delivers an encoded image, the result slot holds
    it, no error is set, the loading flag is down, and the history has
    gained one entry tagged edit that records the image together with
    the full instruction sent to the service. *)
Theorem successful_edit_is_shown_and_recorded ed br w resultImage parsed :
  isEditDisabled ed = false ->
  generateStoryImage br (List.length (requests w)) (editRequest (appState w) ed)
  = Ok resultImage ->
  parseDataUrl resultImage = Ok parsed ->
  handleApplyStandaloneEdit ed br w
  = (Ok (mkEditCells (editBaseImage ed) (editBaseImageName ed)
           (standaloneEditPrompt ed) (Some resultImage) false None),
     mkWorld
       (setHistory
          (pushHistory
             (HistoryItem.mk ("edit-" ++ numberToString (now br (ticks w)))
                parsed
                (editPrompt (editAddChars (appState w))
                            (editAddObjs (appState w))
                            (standaloneEditPrompt ed))
                (toISOString br (now br (S (ticks w)))))
             (history (appState w)))
          (appState w))
       (S (S (ticks w)))
       (requests w ++ [editRequest (appState w) ed])%list (console w)).
Proof.
  intros Henabled Hcall Hparse.
  unfold handleApplyStandaloneEdit. rewrite Henabled.
  unfold awaitGenerateStoryImage. rewrite Hcall.
  now rewrite (handleAddToHistory_parsed _ _ _ _ _ _ Hparse).
Qed.

Lemma successful_edit_is_shown_and_recorded_witness :
  fst (handleApplyStandaloneEdit
         (mkEditCells (Some (mkImageFile (Some "AAAA") "image/png"))
                      None "make it night" None false None)
         exampleBrowser initialWorld)
  = Ok (mkEditCells (Some (mkImageFile (Some "AAAA") "image/png"))
                    None "make it night"
                    (Some "data:image/png;base64,AAAA") false None).
Proof.
  exact (f_equal fst
    (successful_edit_is_shown_and_recorded
       (mkEditCells (Some (mkImageFile (Some "AAAA") "image/png"))
                    None "make it night" None false None)
       exampleBrowser initialWorld "data:image/png;base64,AAAA"
       (mkImageFile (Some "AAAA") "image/png") eq_refl eq_refl eq_refl)).
Defined.

Lemma referenceNames_without_images l :
  (forall c, In c l -> Character.image c = None) ->
  referenceNames l = "" /\ imagesOf l = [].
Proof.
  unfold referenceNames, imagesOf.
  induction l as [|c l IH]; intros H; [split; reflexivity|].
  cbn [filter flat_map]. rewrite (H c (or_introl eq_refl)). cbn [isSome].
  destruct IH as (Hn & Hi); [intros x Hx; apply H; now right|].
  now rewrite Hi.
Qed.

(** Elements whose image slot is empty take no part in an edit: with no
    image among the characters and objects to add, the request carries
    no reference image and its instruction is the edit text alone,
    whatever the names of those elements. *)
Theorem edit_ignores_elements_without_image st ed :
  (forall c, In c (editAddChars st) -> Character.image c = None) ->
  (forall c, In c (editAddObjs st) -> Character.image c = None) ->
  editRequest st ed
  = Request.mk ("Apply this edit to the base image: "
                ++ standaloneEditPrompt ed ++ ".")
               [] None (editBaseImage ed).
Proof.
  intros Hchars Hobjs. unfold editRequest, editPrompt.
  destruct (referenceNames_without_images _ Hchars) as (-> & ->).
  destruct (referenceNames_without_images _ Hobjs) as (-> & ->).
  reflexivity.
Qed.

Lemma edit_ignores_elements_without_image_witness :
  Request.prompt
    (editRequest
       (setEditAddChars [Character.mk 7 "Character 1" None] initialApp)
       (mkEditCells None None "add fog" None false None))
  = "Apply this edit to the base image: add fog.".
Proof.
  refine (f_equal Request.prompt
    (edit_ignores_elements_without_image
       (setEditAddChars [Character.mk 7 "Character 1" None] initialApp)
       (mkEditCells None None "add fog" None false None) _ _)).
  - intros c [<-|[]]. reflexivity.
  - intros c [].
Defined.

(* ===================================================================== *)
(** ** Uploading a file for a character                                   *)
(* ===================================================================== *)

Lemma image_after_upload id image fileName st c' :
  In c' (characters (handleCharacterImageUpload id image fileName st)) ->
  Character.id c' = id -> Character.image c' = image.
Proof.
  unfold handleCharacterImageUpload. destruct st; cbn [characters setCharacters].
  intros Hin Hid. apply in_map_iff in Hin as (c & <- & _).
  destruct (Z.eqb_spec (Character.id c) id) as [_|Hne]; [reflexivity|].
  contradiction.
Qed.

(** A file that is read but is no data URL makes the uploader log the
    error and clear the slot: every character with that identifier ends
    with no image, and no name of the list changes as long as the
    character had a name. *)
Theorem undecodable_upload_clears_the_image id file readerResult e br w :
  File.dataUrl file = Some readerResult ->
  parseDataUrl readerResult = Throw e ->
  (forall c, In c (characters (appState w)) -> Character.id c = id ->
             Character.name c <> "") ->
  uploadCharacterFile id (Some file) br w
  = (Ok tt,
     mkWorld (handleCharacterImageUpload id None None (appState w))
             (ticks w) (requests w)
             (console w ++ ["Error parsing data URL:"])%list)
  /\ (forall c, In c (characters
                        (handleCharacterImageUpload id None None (appState w))) ->
                Character.id c = id -> Character.image c = None)
  /\ map Character.name
         (characters (handleCharacterImageUpload id None None (appState w)))
     = map Character.name (characters (appState w)).
Proof.
  intros Hread Hparse Hnamed. split; [|split].
  - unfold uploadCharacterFile, handleFileChange. rewrite Hread.
    unfold tryCatch, bind, lift. now rewrite Hparse.
  - intros c. apply image_after_upload.
  - unfold handleCharacterImageUpload. rewrite attachedFileName_cleared.
    destruct (appState w); cbn [characters setCharacters] in *.
    now apply cleared_names_kept.
Qed.

Lemma undecodable_upload_clears_the_image_witness :
  characters
    (appState
       (snd (uploadCharacterFile 1
               (Some (File.mk "notes.txt" "text/plain" (Some "plain text")))
               exampleBrowser initialWorld)))
  = [Character.mk 1 "Character 1" None].
Proof.
  rewrite (proj1 (undecodable_upload_clears_the_image 1
                    (File.mk "notes.txt" "text/plain" (Some "plain text"))
                    "plain text" invalidDataUrl exampleBrowser initialWorld
                    eq_refl eq_refl
                    ltac:(intros c [<-|[]] _; discriminate))).
  reflexivity.
Defined.

Lemma name_after_upload id image f st c' :
  f <> "" ->
  In c' (characters (handleCharacterImageUpload id (Some image) (Some f) st)) ->
  Character.id c' = id -> Character.name c' = getNameFromFilename f.
Proof.
  intros Hf. unfold handleCharacterImageUpload.
  destruct st; cbn [characters setCharacters].
  intros Hin Hid. apply in_map_iff in Hin as (c & <- & _).
  destruct (Z.eqb_spec (Character.id c) id) as [_|Hne]; [|contradiction].
  cbn [attachedFileName Character.name]. now rewrite (truthy_nonempty f Hf).
Qed.

(** A file that decodes is attached with nothing logged: every
    character with that identifier ends with the decoded image and with
    the name taken from the file name. *)
Theorem decodable_upload_sets_image_and_name id file readerResult parsed br w :
  File.dataUrl file = Some readerResult ->
  parseDataUrl readerResult = Ok parsed ->
  File.name file <> "" ->
  uploadCharacterFile id (Some file) br w
  = (Ok tt,
     mkWorld (handleCharacterImageUpload id (Some parsed)
                (Some (File.name file)) (appState w))
             (ticks w) (requests w) (console w))
  /\ (forall c,
        In c (characters
                (handleCharacterImageUpload id (Some parsed)
                   (Some (File.name file)) (appState w))) ->
        Character.id c = id ->
        Character.image c = Some parsed
        /\ Character.name c = getNameFromFilename (File.name file)).
Proof.
  intros Hread Hparse Hname. split.
  - unfold uploadCharacterFile, handleFileChange. rewrite Hread.
    unfold tryCatch, bind, lift. now rewrite Hparse.
  - intros c Hin Hid. split.
    + exact (image_after_upload _ _ _ _ _ Hin Hid).
    + exact (name_after_upload _ _ _ _ _ Hname Hin Hid).
Qed.

Lemma decodable_upload_sets_image_and_name_witness :
  characters
    (appState
       (snd (uploadCharacterFile 1
               (Some (File.mk "red_barn.png" "image/png"
                              (Some "data:image/png;base64,AAAA")))
               exampleBrowser initialWorld)))
  = [Character.mk 1 "red barn" (Some (mkImageFile (Some "AAAA") "image/png"))].
Proof.
  rewrite (proj1 (decodable_upload_sets_image_and_name 1
                    (File.mk "red_barn.png" "image/png"
                             (Some "data:image/png;base64,AAAA"))
                    "data:image/png;base64,AAAA"
                    (mkImageFile (Some "AAAA") "image/png")
                    exampleBrowser initialWorld eq_refl eq_refl
                    ltac:(discriminate))).
  reflexivity.
Defined.

(* ===================================================================== *)
(** ** Adding and removing list elements                                  *)
(* ===================================================================== *)

Lemma upload_map_ids (f : Character.t -> string) id image
    (l : list Character.t) :
  map Character.id
      (map (fun c => if Z.eqb (Character.id c) id
                     then Character.mk (Character.id c) (f c) image
                     else c) l)
  = map Character.id l.
Proof.
  induction l as [|c l IH]; [reflexivity|]. cbn [map]. rewrite IH.
  now destruct (Z.eqb (Character.id c) id).
Qed.

(** No image upload, with whatever arguments, adds, removes, reorders or
    renumbers the elements of its list: the identifiers are the same, in
    the same order, in all four lists. *)
Theorem uploads_keep_identifiers_and_order id image fileName st :
  map Character.id (characters (handleCharacterImageUpload id image fileName st))
  = map Character.id (characters st)
  /\ map Character.id
         (additionalElements (handleElementImageUpload id image fileName st))
     = map Character.id (additionalElements st)
  /\ map Character.id
         (editAddChars (handleEditCharImageUpload id image fileName st))
     = map Character.id (editAddChars st)
  /\ map Character.id
         (editAddObjs (handleEditObjImageUpload id image fileName st))
     = map Character.id (editAddObjs st).
Proof.
  unfold handleCharacterImageUpload, handleElementImageUpload,
    handleEditCharImageUpload, handleEditObjImageUpload.
  destruct st; cbn [characters additionalElements editAddChars editAddObjs
    setCharacters setAdditionalElements setEditAddChars setEditAddObjs].
  repeat split; apply upload_map_ids.
Qed.

Lemma withoutElement_absent id l :
  ~ In id (map Character.id l) -> withoutElement id l = l.
Proof.
  intros Habsent. unfold withoutElement. apply filter_keeps_all.
  intros c Hc. apply negb_true_iff, Z.eqb_neq. intros Heq.
  apply Habsent. rewrite <- Heq. now apply in_map.
Qed.

(** Removing an identifier that no element carries leaves the list as it
    is, and adding a character and removing it again gives back the list
    there was, provided the clock reading used as its identifier is not
    already the identifier of an element. *)
Theorem add_then_remove_restores_the_list br w :
  ~ In (now br (ticks w)) (map Character.id (characters (appState w))) ->
  characters
    (appState (snd ((addCharacter ;; removeCharacter (now br (ticks w))) br w)))
  = characters (appState w)
  /\ forall id, ~ In id (map Character.id (characters (appState w))) ->
                removeCharacter id br w = (Ok tt, w).
Proof.
  intros Hfresh. split.
  - unfold bind, addCharacter, removeCharacter, bind, dateNow, update.
    cbn [snd appState]. destruct (appState w); cbn [characters setCharacters] in *.
    unfold withNewElement, withoutElement. rewrite filter_app.
    cbn [filter Character.id]. rewrite Z.eqb_refl. cbn [negb].
    rewrite app_nil_r. apply (withoutElement_absent _ _ Hfresh).
  - intros id Habsent. unfold removeCharacter, update.
    rewrite (withoutElement_absent _ _ Habsent).
    now rewrite setCharacters_same, world_same.
Qed.

Lemma add_then_remove_restores_the_list_witness :
  characters
    (appState (snd ((addCharacter ;; removeCharacter 1000) exampleBrowser
                      initialWorld)))
  = [Character.mk 1 "Character 1" None].
Proof.
  refine (proj1 (add_then_remove_restores_the_list exampleBrowser
                   initialWorld _)).
  cbn. intros [H|[]]. discriminate H.
Defined.

(** When the clock reading used for a new character is already the
    identifier of an element, removing the new character removes that
    element too. *)
Theorem remove_takes_every_element_with_the_identifier br w :
  In (now br (ticks w)) (map Character.id (characters (appState w))) ->
  (List.length
     (characters
        (appState
           (snd ((addCharacter ;; removeCharacter (now br (ticks w))) br w))))
   < List.length (characters (appState w)))%nat.
Proof.
  intros Hin.
  unfold bind, addCharacter, removeCharacter, bind, dateNow, update.
  cbn [snd appState]. destruct (appState w); cbn [characters setCharacters] in *.
  unfold withNewElement, withoutElement. rewrite filter_app.
  cbn [filter Character.id]. rewrite Z.eqb_refl. cbn [negb].
  rewrite app_nil_r.
  remember (now br (ticks w)) as stamp eqn:Hstamp. clear Hstamp.
  apply in_map_iff in Hin as (c & Hid & Hc).
  induction characters0 as [|x l IH]; [destruct Hc|].
  cbn [filter List.length]. destruct Hc as [->|Hc].
  - rewrite Hid, Z.eqb_refl. cbn [negb].
    pose proof (filter_length_le
                  (fun c => negb (Z.eqb (Character.id c) stamp)) l).
    lia.
  - specialize (IH Hc).
    destruct (negb (Z.eqb (Character.id x) stamp));
      cbn [List.length]; lia.
Qed.

Lemma remove_takes_every_element_with_the_identifier_witness :
  (List.length
     (characters
        (appState
           (snd ((addCharacter ;; removeCharacter 1000) exampleBrowser
                   twoCharactersWorld))))
   < 2)%nat.
Proof.
  refine (remove_takes_every_element_with_the_identifier exampleBrowser
            twoCharactersWorld _).
  cbn. right. left. reflexivity.
Defined.

(* ===================================================================== *)
(** ** More on the bulk addition                                          *)
(* ===================================================================== *)

(** Files whose declared type is no image type are left out before any
    decoding: a batch behaves as the batch of its image files, so such a
    file cannot make the batch fail, and a batch without any image file
    changes nothing and reports nothing. *)
Theorem bulk_add_ignores_files_that_are_not_images files br w :
  handleAdditionalElementsFilesAdd files br w
  = handleAdditionalElementsFilesAdd (filter isImageFile files) br w
  /\ ((forall file, In file files -> isImageFile file = false) ->
      handleAdditionalElementsFilesAdd files br w = (Ok tt, w)).
Proof.
  split.
  - unfold handleAdditionalElementsFilesAdd. now rewrite filter_idempotent.
  - intros Hnone.
    assert (Hfilter : filter isImageFile files = []).
    { induction files as [|f fs IH]; [reflexivity|]. cbn [filter].
      rewrite (Hnone f (or_introl eq_refl)).
      apply IH. intros x Hx. apply Hnone. now right. }
    rewrite (handleAdditionalElementsFilesAdd_resolved files br w [])
      by (rewrite Hfilter; reflexivity).
    cbn [builtElements List.length]. rewrite app_nil_r, Nat.add_0_r.
    destruct w as [st t rs cs]. cbn [appState ticks requests console].
    now destruct st.
Qed.

Lemma bulk_add_ignores_files_that_are_not_images_witness :
  handleAdditionalElementsFilesAdd
    [File.mk "notes.txt" "text/plain" None] exampleBrowser initialWorld
  = (Ok tt, initialWorld).
Proof.
  refine (proj2 (bulk_add_ignores_files_that_are_not_images
                   [File.mk "notes.txt" "text/plain" None] exampleBrowser
                   initialWorld) _).
  intros file [<-|[]]. reflexivity.
Defined.

(* ===================================================================== *)
(** ** More on the prompt assembler                                       *)
(* ===================================================================== *)

Lemma parenthesizedNames_truthy l :
  truthy (parenthesizedNames l)
  = match qualified l with [] => false | _ :: _ => true end.
Proof.
  destruct (qualified l) as [|c r] eqn:Hq.
  - now rewrite (parenthesizedNames_none l Hq).
  - apply parenthesizedNames_some. rewrite Hq. discriminate.
Qed.

(** The prompt reads the object list only through the objects that have
    an image and a name that is not blank, and it ends with the sentence
    about the provided images exactly when there is something to point
    to: such a character, such an object, a style image or a location
    image; otherwise it ends with the camera sentence. *)
Theorem prompt_ends_with_consistency_sentence_iff_references st :
  newPrompt st
  = newPrompt (setAdditionalElements (qualified (additionalElements st)) st)
  /\ last (filter truthy (promptParts st)) ""
     = if hasReferences st
       then "Use the provided images for character, object, location, and style consistency."
       else "Use a " ++ cameraPerspective st ++ ".".
Proof.
  split.
  - unfold newPrompt, promptParts. destruct st; cbn [characters
      additionalElements sceneDescription aspectRatio sceneLocationImage
      lightingStyle cameraPerspective styleImage setAdditionalElements].
    now rewrite parenthesizedNames_qualified.
  - unfold promptParts, hasReferences.
    rewrite !parenthesizedNames_truthy.
    destruct (qualified (characters st)), (qualified (additionalElements st)),
      (styleImage st), (sceneLocationImage st),
      (truthy (sceneDescription st)); reflexivity.
Qed.

Lemma failure_with_empty_message_is_not_shown_witness :
  generateTabDisplay
    (appState (snd (handleGenerateClick silentFailureBrowser threeImagesWorld)))
  = [Placeholder].
Proof.
  exact (failure_with_empty_message_is_not_shown silentFailureBrowser
           threeImagesWorld (ErrorObject EmptyString)
           eq_refl eq_refl eq_refl).
Defined.

Lemma name_has_no_underscore_or_hyphen_witness :
  getNameFromFilename "my_best-shot" = "my best shot".
Proof.
  exact (proj2 (proj2 (name_has_no_underscore_or_hyphen "my_best-shot"))
           eq_refl).
Defined.
